(** * spring-ai-chat: the React client [src/App.js]

    A shallow embedding of the [App] component: its [useState] cells become a
    record, every handler becomes a function on that record, and every
    [async] handler is split at its single [await] into a synchronous prefix
    (which may emit a request and leave a continuation in flight) and a
    resumption that is applied to whatever the state is when the reply
    arrives.  The history tab's grouping code is embedded together with the
    part of the JavaScript object model it depends on (own-property order and
    properties inherited from [Object.prototype]). *)

From Stdlib Require Import List Bool Arith NArith Lia String Ascii.
From Stdlib Require Import Permutation Sorted.
Import ListNotations.

(** ** JavaScript strings *)

Module JsString.

(** A JavaScript string is a sequence of UTF-16 code units; [length],
    [substring] and [trim] all work on code units. *)
Definition char16 := N.
Definition jsstring := list char16.

(** An ASCII literal of the source as a code-unit sequence. *)
Definition lit (s : string) : jsstring :=
  map N_of_ascii (list_ascii_of_string s).

Fixpoint eqb (a b : jsstring) : bool :=
  match a, b with
  | [], [] => true
  | x :: a', y :: b' => N.eqb x y && eqb a' b'
  | _, _ => false
  end.

(** [!s] for a string value: only the empty string is falsy. *)
Definition truthy (s : jsstring) : bool :=
  match s with [] => false | _ :: _ => true end.

(** ECMAScript WhiteSpace and LineTerminator code points, as stripped by
    [String.prototype.trim]. *)
Definition is_white_space (c : char16) : bool :=
  (N.eqb c 9 || N.eqb c 10 || N.eqb c 11 || N.eqb c 12 || N.eqb c 13
   || N.eqb c 32 || N.eqb c 160 || N.eqb c 5760
   || (N.leb 8192 c && N.leb c 8202)
   || N.eqb c 8232 || N.eqb c 8233 || N.eqb c 8239 || N.eqb c 8287
   || N.eqb c 12288 || N.eqb c 65279)%bool.

Fixpoint trimStart (s : jsstring) : jsstring :=
  match s with
  | [] => []
  | c :: s' => if is_white_space c then trimStart s' else s
  end.

Definition trimEnd (s : jsstring) : jsstring := rev (trimStart (rev s)).

Definition trim (s : jsstring) : jsstring := trimEnd (trimStart s).

(** [s.substring(from, to)] for non-negative integer arguments: both are
    clamped to the length and swapped when out of order. *)
Definition substring (from to : nat) (s : jsstring) : jsstring :=
  let a := Nat.min from (List.length s) in
  let b := Nat.min to (List.length s) in
  let lo := Nat.min a b in
  let hi := Nat.max a b in
  firstn (hi - lo) (skipn lo s).

End JsString.

Import JsString.

(** ** Component state *)

Inductive Tab := chat | summarize | history.

Definition Tab_eqb (a b : Tab) : bool :=
  match a, b with
  | chat, chat | summarize, summarize | history, history => true
  | _, _ => false
  end.

(** An entry of the [messages] array. *)
Record Message := mkMessage {
  role : jsstring;
  content : jsstring;
  timestamp : jsstring
}.

(** An element of [response.data] of [GET /recent]. *)
Record HistoryMessage := mkHistoryMessage {
  h_sessionId : jsstring;
  h_role : jsstring;
  h_content : jsstring;
  h_timestamp : jsstring
}.

(** The eight [useState] cells of [App]. *)
Record AppState := mkAppState {
  messages : list Message;
  inputMessage : jsstring;
  sessionId : jsstring;
  loading : bool;
  activeTab : Tab;
  summarizeText : jsstring;
  summary : jsstring;
  recentChats : list HistoryMessage
}.

Definition initialState : AppState :=
  mkAppState [] [] [] false chat [] [] [].

(** The state setters.  [setMessages] is only ever called with an updater
    function or a fresh array, so it is modelled as applying a function to
    the current log. *)
Definition setMessages (f : list Message -> list Message) (s : AppState) :=
  mkAppState (f (messages s)) (inputMessage s) (sessionId s) (loading s)
             (activeTab s) (summarizeText s) (summary s) (recentChats s).
Definition setInputMessage (v : jsstring) (s : AppState) :=
  mkAppState (messages s) v (sessionId s) (loading s)
             (activeTab s) (summarizeText s) (summary s) (recentChats s).
Definition setSessionId (v : jsstring) (s : AppState) :=
  mkAppState (messages s) (inputMessage s) v (loading s)
             (activeTab s) (summarizeText s) (summary s) (recentChats s).
Definition setLoading (v : bool) (s : AppState) :=
  mkAppState (messages s) (inputMessage s) (sessionId s) v
             (activeTab s) (summarizeText s) (summary s) (recentChats s).
Definition setActiveTab (v : Tab) (s : AppState) :=
  mkAppState (messages s) (inputMessage s) (sessionId s) (loading s)
             v (summarizeText s) (summary s) (recentChats s).
Definition setSummarizeText (v : jsstring) (s : AppState) :=
  mkAppState (messages s) (inputMessage s) (sessionId s) (loading s)
             (activeTab s) v (summary s) (recentChats s).
Definition setSummary (v : jsstring) (s : AppState) :=
  mkAppState (messages s) (inputMessage s) (sessionId s) (loading s)
             (activeTab s) (summarizeText s) v (recentChats s).
Definition setRecentChats (v : list HistoryMessage) (s : AppState) :=
  mkAppState (messages s) (inputMessage s) (sessionId s) (loading s)
             (activeTab s) (summarizeText s) (summary s) v.

(** ** Requests, replies and suspended handlers *)

Inductive Request :=
| PostSend (message : jsstring) (sid : option jsstring)
| PostSummarize (text : jsstring)
| GetRecent
| DeleteHistory (sid : jsstring).

(** The settlement of an awaited promise. *)
Inductive Outcome (A : Type) :=
| Fulfilled (data : A)
| Rejected.
Arguments Fulfilled {A} data.
Arguments Rejected {A}.

(** [response.data] of [POST /send]. *)
Record SendData := mkSendData {
  response : jsstring;
  data_sessionId : jsstring
}.

(** A handler suspended at its [await].  A suspended [sendMessage] keeps the
    [sessionId] of the render it was started from: the test
    [if (!sessionId)] after the [await] reads that captured value. *)
Inductive Pending :=
| AwaitSend (captured_sessionId : jsstring)
| AwaitSummarize
| AwaitRecent
| AwaitClear.

Definition user_role : jsstring := lit "user".
Definition assistant_role : jsstring := lit "assistant".
Definition send_error_notice : jsstring :=
  lit "Sorry, I encountered an error. Please try again.".
Definition summarize_error_notice : jsstring :=
  lit "Error: Could not generate summary. Please try again.".

(** ** The handlers *)

(** [sendMessage], up to its [await].  [now] is the reading of
    [new Date().toISOString()]. *)
Definition sendMessage_start (now : jsstring) (s : AppState)
  : AppState * option (Request * Pending) :=
  if negb (truthy (trim (inputMessage s))) then (s, None)
  else
    let userMessage := mkMessage user_role (inputMessage s) now in
    let s1 := setMessages (fun prev => prev ++ [userMessage]) s in
    let s2 := setInputMessage [] s1 in
    let s3 := setLoading true s2 in
    (s3,
     Some (PostSend (inputMessage s)
                    (if truthy (sessionId s) then Some (sessionId s) else None),
           AwaitSend (sessionId s))).

(** [sendMessage], from the settlement of the request to its end: the [try]
    tail or the [catch] block, then [finally]. *)
Definition sendMessage_resume (captured_sessionId : jsstring)
    (o : Outcome SendData) (now : jsstring) (s : AppState) : AppState :=
  let s1 :=
    match o with
    | Fulfilled data =>
        let assistantMessage := mkMessage assistant_role (response data) now in
        let s' := setMessages (fun prev => prev ++ [assistantMessage]) s in
        if negb (truthy captured_sessionId)
        then setSessionId (data_sessionId data) s'
        else s'
    | Rejected =>
        let errorMessage := mkMessage assistant_role send_error_notice now in
        setMessages (fun prev => prev ++ [errorMessage]) s
    end in
  setLoading false s1.

(** A [sendMessage] call run from start to end with no other handler run in
    between. *)
Definition sendMessage (now : jsstring) (o : Outcome SendData)
    (now' : jsstring) (s : AppState) : AppState :=
  match sendMessage_start now s with
  | (s1, Some (_, AwaitSend sid)) => sendMessage_resume sid o now' s1
  | (s1, _) => s1
  end.

Definition handleSummarize_start (s : AppState)
  : AppState * option (Request * Pending) :=
  if negb (truthy (trim (summarizeText s))) then (s, None)
  else (setLoading true s, Some (PostSummarize (summarizeText s), AwaitSummarize)).

(** The payload of a fulfilled summarize request is [response.data.summary]. *)
Definition handleSummarize_resume (o : Outcome jsstring) (s : AppState)
  : AppState :=
  let s1 :=
    match o with
    | Fulfilled text => setSummary text s
    | Rejected => setSummary summarize_error_notice s
    end in
  setLoading false s1.

Definition handleSummarize (o : Outcome jsstring) (s : AppState) : AppState :=
  match handleSummarize_start s with
  | (s1, Some _) => handleSummarize_resume o s1
  | (s1, None) => s1
  end.

Definition loadRecentChats_start (s : AppState)
  : AppState * option (Request * Pending) :=
  (setLoading true s, Some (GetRecent, AwaitRecent)).

Definition loadRecentChats_resume (o : Outcome (list HistoryMessage))
    (s : AppState) : AppState :=
  let s1 :=
    match o with
    | Fulfilled data => setRecentChats data s
    | Rejected => s
    end in
  setLoading false s1.

(** The two statements after the [if] of [clearChat]. *)
Definition clearChat_finish (s : AppState) : AppState :=
  setSessionId [] (setMessages (fun _ => []) s).

(** [clearChat] awaits only when a session id is set; otherwise it runs to
    its end at once. *)
Definition clearChat_start (s : AppState)
  : AppState * option (Request * Pending) :=
  if truthy (sessionId s)
  then (s, Some (DeleteHistory (sessionId s), AwaitClear))
  else (clearChat_finish s, None).

(** The settlement of the delete request is only logged. *)
Definition clearChat_resume (o : Outcome unit) (s : AppState) : AppState :=
  clearChat_finish s.

Definition clearChat (o : Outcome unit) (s : AppState) : AppState :=
  match clearChat_start s with
  | (s1, Some _) => clearChat_resume o s1
  | (s1, None) => s1
  end.

(** The [onClick] of a history item's Load Chat button. *)
Definition loadChat (sessId : jsstring) (msgs : list HistoryMessage)
    (s : AppState) : AppState :=
  let s1 := setSessionId sessId s in
  let s2 := setMessages
              (fun _ => map (fun m => mkMessage (h_role m) (h_content m)
                                                (h_timestamp m)) msgs) s1 in
  setActiveTab chat s2.

(** [handleKeyPress]: [enter] is [e.key === 'Enter'], [shift] is
    [e.shiftKey]. *)
Definition handleKeyPress (enter shift : bool) (now : jsstring) (s : AppState)
  : AppState * option (Request * Pending) :=
  if enter && negb shift then
    if Tab_eqb (activeTab s) chat then sendMessage_start now s
    else if Tab_eqb (activeTab s) summarize then handleSummarize_start s
    else (s, None)
  else (s, None).

(** ** The rendered controls *)

(** The [disabled] attributes of the JSX, and the tab each control is
    rendered in. *)
Definition chat_textarea_disabled (s : AppState) : bool := loading s.
Definition send_button_disabled (s : AppState) : bool :=
  loading s || negb (truthy (trim (inputMessage s))).
Definition clear_button_disabled (s : AppState) : bool :=
  Nat.eqb (List.length (messages s)) 0.
Definition summarize_textarea_disabled (s : AppState) : bool := loading s.
Definition summarize_button_disabled (s : AppState) : bool :=
  loading s || negb (truthy (trim (summarizeText s))).
Definition refresh_button_disabled (s : AppState) : bool := loading s.

(** The component together with the handlers suspended at an [await] and the
    requests sent so far. *)
Record World := mkWorld {
  st : AppState;
  inflight : list Pending;
  outbox : list Request
}.

Definition initialWorld : World := mkWorld initialState [] [].

Inductive Event :=
| ChangeInput (text : jsstring)
| KeyPressChat (enter shift : bool) (now : jsstring)
| ClickSend (now : jsstring)
| ClickClear
| ClickTab (t : Tab)
| ChangeSummarizeText (text : jsstring)
| KeyPressSummarize (enter shift : bool) (now : jsstring)
| ClickSummarize
| ClickSummaryClear
| ClickRefresh
| SendSettled (i : nat) (o : Outcome SendData) (now : jsstring)
| SummarizeSettled (i : nat) (o : Outcome jsstring)
| RecentSettled (i : nat) (o : Outcome (list HistoryMessage))
| ClearSettled (i : nat) (o : Outcome unit).

(** Run the synchronous prefix of a handler: record its request and keep its
    continuation. *)
Definition launch (w : World) (r : AppState * option (Request * Pending))
  : World :=
  match r with
  | (s, Some (req, p)) => mkWorld s (inflight w ++ [p]) (outbox w ++ [req])
  | (s, None) => mkWorld s (inflight w) (outbox w)
  end.

Definition drop_nth {A : Type} (i : nat) (l : list A) : list A :=
  firstn i l ++ skipn (S i) l.

Definition settle (w : World) (i : nat) (s : AppState) : World :=
  mkWorld s (drop_nth i (inflight w)) (outbox w).

(** One event of the browser: a disabled or unrendered control delivers no
    event; a settled promise resumes its handler on the current state.
    Selecting the history tab runs the [useEffect] that loads the recent
    chats. *)
Definition ui_step (w : World) (e : Event) : World :=
  let s := st w in
  match e with
  | ChangeInput text =>
      if Tab_eqb (activeTab s) chat && negb (chat_textarea_disabled s)
      then mkWorld (setInputMessage text s) (inflight w) (outbox w) else w
  | KeyPressChat enter shift now =>
      if Tab_eqb (activeTab s) chat && negb (chat_textarea_disabled s)
      then launch w (handleKeyPress enter shift now s) else w
  | ClickSend now =>
      if Tab_eqb (activeTab s) chat && negb (send_button_disabled s)
      then launch w (sendMessage_start now s) else w
  | ClickClear =>
      if Tab_eqb (activeTab s) chat && negb (clear_button_disabled s)
      then launch w (clearChat_start s) else w
  | ClickTab t =>
      let s1 := setActiveTab t s in
      if negb (Tab_eqb (activeTab s) t) && Tab_eqb t history
      then launch w (loadRecentChats_start s1)
      else mkWorld s1 (inflight w) (outbox w)
  | ChangeSummarizeText text =>
      if Tab_eqb (activeTab s) summarize
         && negb (summarize_textarea_disabled s)
      then mkWorld (setSummarizeText text s) (inflight w) (outbox w) else w
  | KeyPressSummarize enter shift now =>
      if Tab_eqb (activeTab s) summarize
         && negb (summarize_textarea_disabled s)
      then launch w (handleKeyPress enter shift now s) else w
  | ClickSummarize =>
      if Tab_eqb (activeTab s) summarize
         && negb (summarize_button_disabled s)
      then launch w (handleSummarize_start s) else w
  | ClickSummaryClear =>
      if Tab_eqb (activeTab s) summarize && truthy (summary s)
      then mkWorld (setSummarizeText [] (setSummary [] s))
                   (inflight w) (outbox w)
      else w
  | ClickRefresh =>
      if Tab_eqb (activeTab s) history && negb (refresh_button_disabled s)
      then launch w (loadRecentChats_start s) else w
  | SendSettled i o now =>
      match nth_error (inflight w) i with
      | Some (AwaitSend sid) => settle w i (sendMessage_resume sid o now s)
      | _ => w
      end
  | SummarizeSettled i o =>
      match nth_error (inflight w) i with
      | Some AwaitSummarize => settle w i (handleSummarize_resume o s)
      | _ => w
      end
  | RecentSettled i o =>
      match nth_error (inflight w) i with
      | Some AwaitRecent => settle w i (loadRecentChats_resume o s)
      | _ => w
      end
  | ClearSettled i o =>
      match nth_error (inflight w) i with
      | Some AwaitClear => settle w i (clearChat_resume o s)
      | _ => w
      end
  end.

Definition ui_run (w : World) (es : list Event) : World :=
  fold_left ui_step es w.



(** ** Ordinary JavaScript objects used as maps *)

Module JsObject.

Section Obj.

Variable V : Type.

(** The own properties of an object, in the order they were created. *)
Definition obj := list (jsstring * V).

Fixpoint own_get (o : obj) (k : jsstring) : option V :=
  match o with
  | [] => None
  | (k', v) :: o' => if eqb k' k then Some v else own_get o' k
  end.

Fixpoint own_replace (o : obj) (k : jsstring) (v : V) : obj :=
  match o with
  | [] => []
  | (k', v') :: o' =>
      if eqb k' k then (k', v) :: o' else (k', v') :: own_replace o' k v
  end.

(** [o[k] = v]: an existing own property keeps its place, a new one is
    created after all the others. *)
Definition obj_set (o : obj) (k : jsstring) (v : V) : obj :=
  match own_get o k with
  | Some _ => own_replace o k v
  | None => o ++ [(k, v)]
  end.

(** The names every object inherits from [Object.prototype]; each of them
    holds a function, or for [__proto__] the prototype object itself. *)
Definition object_prototype_names : list jsstring :=
  map lit
    [ "constructor"; "__defineGetter__"; "__defineSetter__"; "hasOwnProperty";
      "__lookupGetter__"; "__lookupSetter__"; "isPrototypeOf";
      "propertyIsEnumerable"; "toString"; "valueOf"; "__proto__";
      "toLocaleString" ]%string.

Definition inherited (k : jsstring) : bool :=
  existsb (eqb k) object_prototype_names.

Inductive Lookup :=
| OwnValue (v : V)
| InheritedValue
| Undefined.

(** [o[k]], through the prototype chain. *)
Definition obj_get (o : obj) (k : jsstring) : Lookup :=
  match own_get o k with
  | Some v => OwnValue v
  | None => if inherited k then InheritedValue else Undefined
  end.

Definition is_digit (c : char16) : bool := N.leb 48 c && N.leb c 57.

Fixpoint digits_value (acc : N) (s : jsstring) : option N :=
  match s with
  | [] => Some acc
  | c :: s' =>
      if is_digit c then digits_value (10 * acc + (c - 48))%N s' else None
  end.

(** A property name is an array index when it is the canonical decimal
    numeral of an integer in [0, 2^32 - 2]. *)
Definition array_index (k : jsstring) : option N :=
  match k with
  | [] => None
  | c :: rest =>
      if N.eqb c 48 && truthy rest then None
      else match digits_value 0 k with
           | Some n => if N.ltb n 4294967295 then Some n else None
           | None => None
           end
  end.

Definition is_array_index (k : jsstring) : bool :=
  match array_index k with Some _ => true | None => false end.

Definition index_of (k : jsstring) : N :=
  match array_index k with Some n => n | None => 0%N end.

Fixpoint insert_by_index (e : jsstring * V) (l : obj) : obj :=
  match l with
  | [] => [e]
  | e' :: l' =>
      if N.leb (index_of (fst e)) (index_of (fst e'))
      then e :: l else e' :: insert_by_index e l'
  end.

Fixpoint sort_by_index (l : obj) : obj :=
  match l with
  | [] => []
  | e :: l' => insert_by_index e (sort_by_index l')
  end.

(** The order the array-index entries are listed in. *)
Definition index_le (e e' : jsstring * V) : Prop :=
  (index_of (fst e) <= index_of (fst e'))%N.

(** [Object.entries(o)]: own properties whose name is an array index come
    first, in ascending numeric order; the others follow in creation
    order. *)
Definition entries (o : obj) : obj :=
  sort_by_index (filter (fun e => is_array_index (fst e)) o)
  ++ filter (fun e => negb (is_array_index (fst e))) o.

End Obj.

Arguments OwnValue {V} v.
Arguments InheritedValue {V}.
Arguments Undefined {V}.
Arguments own_get {V} o k.
Arguments own_replace {V} o k v.
Arguments obj_set {V} o k v.
Arguments obj_get {V} o k.
Arguments insert_by_index {V} e l.
Arguments sort_by_index {V} l.
Arguments entries {V} o.
Arguments index_le {V} e e'.

End JsObject.

Import JsObject.

(** ** The history tab: grouping [recentChats] by session *)

Inductive Result (A : Type) :=
| Ok (a : A)
| TypeError.
Arguments Ok {A} a.
Arguments TypeError {A}.

Definition Sessions := obj (list HistoryMessage).

(** The body of the [forEach] callback.  Arrays and inherited functions are
    truthy; calling [push] on an inherited value throws. *)
Definition group_step (sessions : Sessions) (msg : HistoryMessage)
  : Result Sessions :=
  let k := h_sessionId msg in
  let sessions1 :=
    match obj_get sessions k with
    | Undefined => obj_set sessions k []
    | _ => sessions
    end in
  match obj_get sessions1 k with
  | OwnValue arr => Ok (obj_set sessions1 k (arr ++ [msg]))
  | InheritedValue => TypeError
  | Undefined => TypeError
  end.

Fixpoint forEach_group (l : list HistoryMessage) (sessions : Sessions)
  : Result Sessions :=
  match l with
  | [] => Ok sessions
  | msg :: l' =>
      match group_step sessions msg with
      | Ok sessions' => forEach_group l' sessions'
      | TypeError => TypeError
      end
  end.

Definition group_sessions (l : list HistoryMessage) : Result Sessions :=
  forEach_group l [].

Definition fallback_preview : jsstring := lit "Chat session".
Definition ellipsis : jsstring := lit "...".

(** [msgs.find(m => m.role === 'user')?.content || 'Chat session'] *)
Definition preview_of (msgs : list HistoryMessage) : jsstring :=
  match find (fun m => eqb (h_role m) user_role) msgs with
  | Some m => if truthy (h_content m) then h_content m else fallback_preview
  | None => fallback_preview
  end.

(** The text of the [history-preview] element. *)
Definition preview_text (preview : jsstring) : jsstring :=
  substring 0 100 preview
  ++ (if Nat.ltb 100 (List.length preview) then ellipsis else []).

(** What one history item is rendered from. *)
Record HistoryItem := mkHistoryItem {
  sessId : jsstring;
  msgs : list HistoryMessage;
  firstMessage : option HistoryMessage;
  lastMessage : option HistoryMessage;
  messageCount : nat;
  preview : jsstring;
  shown_preview : jsstring
}.

Definition history_item (e : jsstring * list HistoryMessage) : HistoryItem :=
  let '(k, ms) := e in
  mkHistoryItem k ms (nth_error ms 0) (nth_error ms (List.length ms - 1))
                (List.length ms) (preview_of ms) (preview_text (preview_of ms)).

(** The function expression rendered inside [history-list]. *)
Definition history_items (l : list HistoryMessage)
  : Result (list HistoryItem) :=
  match group_sessions l with
  | Ok sessions => Ok (map history_item (entries sessions))
  | TypeError => TypeError
  end.

(** The groups of a rendering, put back into one message sequence. *)
Definition flatten_items (items : list HistoryItem) : list HistoryMessage :=
  List.concat (map msgs items).

(** ** Grouping as the specification words it *)

(** The distinct elements of a list, each at its first appearance. *)
Fixpoint first_appearance (l : list jsstring) : list jsstring :=
  match l with
  | [] => []
  | k :: l' => k :: filter (fun k' => negb (eqb k' k)) (first_appearance l')
  end.

Definition session_messages (k : jsstring) (l : list HistoryMessage)
  : list HistoryMessage :=
  filter (fun m => eqb (h_sessionId m) k) l.

(** One group per session id, in first-appearance order, each holding the
    messages of that session in input order. *)
Definition groupBySession_spec (l : list HistoryMessage) : Sessions :=
  map (fun k => (k, session_messages k l))
      (first_appearance (map h_sessionId l)).

(** A history record written with ASCII literals. *)
Definition hm (sid r c : string) : HistoryMessage :=
  mkHistoryMessage (lit sid) (lit r) (lit c) [].

(** ** Auxiliary notions used by the statements *)

(** The assistant message a settled send appends. *)
Definition reply_message (o : Outcome SendData) (now : jsstring) : Message :=
  match o with
  | Fulfilled d => mkMessage assistant_role (response d) now
  | Rejected => mkMessage assistant_role send_error_notice now
  end.


(** Distinct keys; every group non-empty and made of messages of its own
    session; no key shadowing a property of [Object.prototype]. *)
Definition group_ok (e : jsstring * list HistoryMessage) : Prop :=
  snd e <> []
  /\ Forall (fun m => h_sessionId m = fst e) (snd e)
  /\ inherited (fst e) = false.

Definition well_grouped (o : Sessions) : Prop :=
  NoDup (map fst o) /\ Forall group_ok o.

Definition item_summary (i : HistoryItem) : jsstring * jsstring * nat :=
  (sessId i, preview i, messageCount i).

Definition rendered_order (l : list HistoryMessage) : option (list jsstring) :=
  match history_items l with
  | Ok items => Some (map sessId items)
  | TypeError => None
  end.

(** ** Sample inputs *)

Definition two_sessions : list HistoryMessage :=
  [ hm "A" "user" "hi"; hm "A" "assistant" "hello"; hm "B" "assistant" "x" ].

Definition mixed_sessions : list HistoryMessage :=
  [ hm "b" "user" "hi"; hm "10" "assistant" "yo"; hm "b" "assistant" "hello";
    hm "9" "user" ""; hm "10" "user" "again" ].

Definition long_history_message (n : nat) : HistoryMessage :=
  mkHistoryMessage (lit "A") user_role (repeat 120%N n) [].


(** A send, a visit to the history tab whose load completes while the send
    is still unresolved, and a second send. *)
Definition overlapping_sends : list Event :=
  [ ChangeInput (lit "a"); ClickSend (lit "t1");
    ClickTab history; RecentSettled 1 (Fulfilled []);
    ClickTab chat; ChangeInput (lit "b"); ClickSend (lit "t2") ].

(** ** The history item buttons, the labels and the history view *)

(** The message object Load Chat builds from a history record. *)
Definition chat_message (m : HistoryMessage) : Message :=
  mkMessage (h_role m) (h_content m) (h_timestamp m).

Definition delete_failed_alert : jsstring := lit "Failed to delete session".

(** The [onClick] of a history item's Delete button, up to its [await];
    [confirmed] is the answer of [window.confirm]. *)
Definition deleteSession_start (confirmed : bool) (sessId : jsstring)
    (s : AppState) : AppState * option Request :=
  if confirmed then (s, Some (DeleteHistory sessId)) else (s, None).

(** The rest of that handler: a fulfilled request starts
    [loadRecentChats], a rejected one raises the alert (the third
    component). *)
Definition deleteSession_resume (o : Outcome unit) (s : AppState)
  : AppState * option (Request * Pending) * option jsstring :=
  match o with
  | Fulfilled _ => (loadRecentChats_start s, None)
  | Rejected => ((s, None), Some delete_failed_alert)
  end.

(** The text of the [session-info] element, rendered only when a session id
    is set. *)
Definition session_info (s : AppState) : option jsstring :=
  if truthy (sessionId s)
  then Some (lit "Session ID: " ++ substring 0 8 (sessionId s) ++ ellipsis)
  else None.

(** The text of a history item's [history-session-id] element. *)
Definition history_session_label (sessId : jsstring) : jsstring :=
  lit "Session: " ++ substring 0 8 sessId ++ ellipsis.

(** What the history tab shows below its header. *)
Inductive HistoryView :=
| LoadingNotice
| EmptyNotice
| HistoryList (items : Result (list HistoryItem)).

Definition history_view (s : AppState) : HistoryView :=
  if loading s && Nat.eqb (List.length (recentChats s)) 0 then LoadingNotice
  else if Nat.eqb (List.length (recentChats s)) 0 then EmptyNotice
  else HistoryList (history_items (recentChats s)).

(** ** Notions used by the further properties *)

Definition is_AwaitClear (p : Pending) : bool :=
  match p with AwaitClear => true | _ => false end.

(** The loading flag is on only while a handler that will switch it off is
    suspended. *)
Definition spinner_backed (w : World) : Prop :=
  loading (st w) = true ->
  exists p, In p (inflight w) /\ is_AwaitClear p = false.

(** A message as this client writes it: a user message with a content that
    is not blank, or an assistant message. *)
Definition written_here (m : Message) : Prop :=
  (role m = user_role /\ trim (content m) <> []) \/ role m = assistant_role.

(** The cells a chat handler has no business with. *)
Definition outside_chat (s : AppState) :=
  (activeTab s, summarizeText s, summary s, recentChats s).

(** The cells of the conversation. *)
Definition chat_session (s : AppState) :=
  (messages s, inputMessage s, sessionId s).

(** The order [Object.entries] gives to a sequence of distinct keys created
    in that order. *)
Definition key_order (ks : list jsstring) : list jsstring :=
  map fst (entries (map (fun k => (k, tt)) ks)).

(** A request as the handlers of the chat and summarize tabs send it: no
    blank message or text, no empty session id. *)
Definition request_ok (r : Request) : Prop :=
  match r with
  | PostSend message sid => trim message <> [] /\ sid <> Some []
  | PostSummarize text => trim text <> []
  | GetRecent => True
  | DeleteHistory sid => sid <> []
  end.

(** * Properties *)

(** ** Strings *)

Lemma eqb_eq (a b : jsstring) : eqb a b = true <-> a = b.
Proof.
  revert b; induction a as [|x a IH]; intros [|y b]; simpl;
    try (split; [discriminate | discriminate]); try tauto.
  rewrite andb_true_iff, N.eqb_eq, IH.
  split; [intros [-> ->]; reflexivity | intros E; inversion E; auto].
Qed.

Lemma eqb_refl (a : jsstring) : eqb a a = true.
Proof. apply eqb_eq; reflexivity. Qed.

Lemma eqb_neq (a b : jsstring) : eqb a b = false <-> a <> b.
Proof.
  rewrite <- eqb_eq. destruct (eqb a b); split; congruence.
Qed.

Lemma eqb_sym (a b : jsstring) : eqb a b = eqb b a.
Proof.
  destruct (eqb a b) eqn:E.
  - apply eqb_eq in E; subst; symmetry; apply eqb_refl.
  - symmetry; apply eqb_neq; apply eqb_neq in E; congruence.
Qed.

Lemma trimStart_white (s : jsstring) :
  forallb is_white_space s = true -> trimStart s = [].
Proof.
  induction s as [|c s IH]; simpl; [reflexivity|].
  intros H; apply andb_true_iff in H as [Hc Hs].
  rewrite Hc; auto.
Qed.

Lemma trim_white (s : jsstring) :
  forallb is_white_space s = true -> trim s = [].
Proof.
  intros H; unfold trim, trimEnd.
  rewrite (trimStart_white s H); reflexivity.
Qed.

Lemma trimStart_nil_white (s : jsstring) :
  trimStart s = [] -> forallb is_white_space s = true.
Proof.
  induction s as [|c s IH]; simpl; [reflexivity|].
  destruct (is_white_space c); [auto | discriminate].
Qed.

Lemma trimStart_head (s : jsstring) c r :
  trimStart s = c :: r -> is_white_space c = false.
Proof.
  induction s as [|d s IH]; simpl; [discriminate|].
  destruct (is_white_space d) eqn:E; [exact IH|].
  intros H; inversion H; subst; exact E.
Qed.

(** [trim] returns the empty string exactly on the strings made of white
    space only (the empty string included). *)
Lemma trim_nil_iff (s : jsstring) :
  trim s = [] <-> forallb is_white_space s = true.
Proof.
  split; [|apply trim_white].
  unfold trim, trimEnd; intros H.
  destruct (trimStart s) as [|c r] eqn:E.
  - apply trimStart_nil_white; exact E.
  - exfalso.
    assert (Hr : trimStart (rev (c :: r)) = []).
    { destruct (trimStart (rev (c :: r))) eqn:E'; [reflexivity|].
      try rewrite E' in H.
      apply (f_equal (@List.length _)) in H; rewrite length_rev in H.
      simpl in H; discriminate. }
    apply trimStart_nil_white in Hr.
    rewrite forallb_forall in Hr.
    pose proof (trimStart_head s c r E) as Hc.
    specialize (Hr c); rewrite Hr in Hc; [discriminate|].
    apply in_rev; rewrite rev_involutive; left; reflexivity.
Qed.

Lemma trim_truthy (s : jsstring) : trim s <> [] -> truthy (trim s) = true.
Proof. destruct (trim s); [congruence | reflexivity]. Qed.

(** ** sendMessage *)

Lemma sendMessage_start_accepts now s :
  trim (inputMessage s) <> [] ->
  sendMessage_start now s =
    (setLoading true
       (setInputMessage []
          (setMessages
             (fun prev => prev ++ [mkMessage user_role (inputMessage s) now])
             s)),
     Some (PostSend (inputMessage s)
             (if truthy (sessionId s) then Some (sessionId s) else None),
           AwaitSend (sessionId s))).
Proof.
  intros H; unfold sendMessage_start.
  rewrite (trim_truthy _ H); reflexivity.
Qed.

Lemma sendMessage_resume_messages sid o now s :
  messages (sendMessage_resume sid o now s)
  = messages s ++ [reply_message o now].
Proof.
  unfold sendMessage_resume.
  destruct o as [d|]; simpl; [destruct (truthy sid)|]; reflexivity.
Qed.

(** C1, as the code has it: a [sendMessage] call on an input that is not
    empty after trimming appends exactly two messages, each to the end of
    the log as it is at that moment: the user message before its request,
    and when the request settles the reply on success or the fixed error
    notice on failure.  When nothing changed the log between the two (in
    particular when the call runs on its own) the log afterwards is the old
    log followed by the user message and then the assistant message: two
    more messages, the old ones untouched, the new ones adjacent and in that
    order. *)
Theorem sendMessage_appends_user_then_assistant :
  forall (now now' : jsstring) (o : Outcome SendData) (s : AppState),
    trim (inputMessage s) <> [] ->
    messages (fst (sendMessage_start now s))
    = messages s ++ [mkMessage user_role (inputMessage s) now]
    /\ (forall sid s',
          messages (sendMessage_resume sid o now' s')
          = messages s' ++ [reply_message o now'])
    /\ messages (sendMessage now o now' s)
       = messages s ++ [mkMessage user_role (inputMessage s) now;
                        reply_message o now']
    /\ List.length (messages (sendMessage now o now' s))
       = List.length (messages s) + 2
    /\ forall s',
         messages s' = messages (fst (sendMessage_start now s)) ->
         messages (sendMessage_resume (sessionId s) o now' s')
         = messages s ++ [mkMessage user_role (inputMessage s) now;
                          reply_message o now']
         /\ List.length (messages (sendMessage_resume (sessionId s) o now' s'))
            = List.length (messages s) + 2.
Proof.
  intros now now' o s H.
  assert (E : messages (sendMessage now o now' s)
              = messages s ++ [mkMessage user_role (inputMessage s) now;
                               reply_message o now']).
  { unfold sendMessage. rewrite (sendMessage_start_accepts now s H).
    rewrite sendMessage_resume_messages. simpl.
    rewrite <- app_assoc. reflexivity. }
  split; [|split; [|split; [|split]]].
  - rewrite (sendMessage_start_accepts now s H). reflexivity.
  - intros sid s'. apply sendMessage_resume_messages.
  - exact E.
  - rewrite E, length_app. reflexivity.
  - intros s' Es'.
    assert (E' : messages (sendMessage_resume (sessionId s) o now' s')
                 = messages s ++ [mkMessage user_role (inputMessage s) now;
                                  reply_message o now']).
    { rewrite sendMessage_resume_messages, Es'.
      rewrite (sendMessage_start_accepts now s H). simpl.
      rewrite <- app_assoc. reflexivity. }
    split; [exact E'|]. rewrite E', length_app. reflexivity.
Qed.

Lemma sendMessage_appends_user_then_assistant_witness :
  let s := mkAppState [mkMessage user_role (lit "old") []] (lit " hi ")
                      [] false chat [] [] [] in
  (messages (sendMessage (lit "t1") (Fulfilled (mkSendData (lit "yo") (lit "S")))
                         (lit "t2") s)
   = [mkMessage user_role (lit "old") [];
      mkMessage user_role (lit " hi ") (lit "t1");
      mkMessage assistant_role (lit "yo") (lit "t2")])
  /\ (messages (sendMessage (lit "t1") Rejected (lit "t2") s)
      = [mkMessage user_role (lit "old") [];
         mkMessage user_role (lit " hi ") (lit "t1");
         mkMessage assistant_role send_error_notice (lit "t2")])
  /\ (messages (sendMessage_resume (sessionId s) Rejected (lit "t2")
                  (setActiveTab history
                     (fst (sendMessage_start (lit "t1") s))))
      = [mkMessage user_role (lit "old") [];
         mkMessage user_role (lit " hi ") (lit "t1");
         mkMessage assistant_role send_error_notice (lit "t2")]).
Proof.
  intros s.
  assert (H : trim (inputMessage s) <> []) by (vm_compute; discriminate).
  pose proof (sendMessage_appends_user_then_assistant
                (lit "t1") (lit "t2")
                (Fulfilled (mkSendData (lit "yo") (lit "S"))) s H)
    as (_ & _ & A & _).
  pose proof (sendMessage_appends_user_then_assistant
                (lit "t1") (lit "t2") Rejected s H) as (_ & _ & B & _ & C).
  exact (conj A (conj B
           (proj1 (C (setActiveTab history
                        (fst (sendMessage_start (lit "t1") s)))
                     eq_refl)))).
Defined.

(** A handler that runs while the request is unresolved is applied between
    the two appends.  Send, Clear, reply: the clear empties the log, so the
    completed send leaves the reply alone, one message where there were
    none.  Two overlapping sends, then the reply to the first: the second
    user message stands between the first user message and its reply. *)
Lemma completed_send_without_adjacent_pair :
  (let w := ui_run initialWorld
              [ ChangeInput (lit "hi"); ClickSend (lit "t1"); ClickClear;
                SendSettled 0 (Fulfilled (mkSendData (lit "yo") (lit "S1")))
                            (lit "t2") ] in
   messages (st initialWorld) = []
   /\ inflight w = []
   /\ messages (st w) = [mkMessage assistant_role (lit "yo") (lit "t2")]
   /\ List.length (messages (st w))
      <> List.length (messages (st initialWorld)) + 2)
  /\ (let w := ui_run initialWorld
                 (overlapping_sends
                  ++ [SendSettled 0
                        (Fulfilled (mkSendData (lit "ra") (lit "S1")))
                        (lit "t3")]) in
      messages (st w)
      = [ mkMessage user_role (lit "a") (lit "t1");
          mkMessage user_role (lit "b") (lit "t2");
          mkMessage assistant_role (lit "ra") (lit "t3") ]
      /\ inflight w = [AwaitSend []]).
Proof.
  split.
  - split; [reflexivity|]. split; [reflexivity|]. split; [reflexivity|].
    vm_compute. discriminate.
  - split; reflexivity.
Qed.

(** The same pair is appended around any other handlers that ran while the
    request was in flight, as long as they left the log alone. *)
Lemma sendMessage_split_appends now now' o s s' :
  trim (inputMessage s) <> [] ->
  messages s' = messages (fst (sendMessage_start now s)) ->
  messages (sendMessage_resume (sessionId s) o now' s')
  = messages s ++ [mkMessage user_role (inputMessage s) now;
                   reply_message o now'].
Proof.
  intros H E. rewrite sendMessage_resume_messages, E.
  rewrite (sendMessage_start_accepts now s H). simpl.
  rewrite <- app_assoc. reflexivity.
Qed.

(** C7: on an input that is empty or made of white space only,
    [sendMessage] returns at its first statement: the state (log, session
    id, loading flag and all the rest) is the one it started from and no
    request is issued. *)
Theorem sendMessage_blank_is_noop :
  forall (now : jsstring) (s : AppState),
    forallb is_white_space (inputMessage s) = true ->
    sendMessage_start now s = (s, None)
    /\ forall o now', sendMessage now o now' s = s.
Proof.
  intros now s H.
  assert (E : sendMessage_start now s = (s, None)).
  { unfold sendMessage_start. rewrite (trim_white _ H). reflexivity. }
  split; [exact E|].
  intros o now'. unfold sendMessage. rewrite E. reflexivity.
Qed.

Lemma sendMessage_blank_is_noop_witness :
  let s := mkAppState [mkMessage user_role (lit "old") []]
                      [32; 9; 10; 160; 8232]%N
                      (lit "S") true chat [] [] [] in
  sendMessage_start (lit "t") s = (s, None)
  /\ forall o now', sendMessage (lit "t") o now' s = s.
Proof.
  intros s. apply (sendMessage_blank_is_noop (lit "t") s). reflexivity.
Defined.

(** C5: a [sendMessage] call started while a session id is set never
    changes it: not in its synchronous part, and not when it resumes,
    whatever session id the reply carries and whatever the state is by
    then. *)
Theorem sendMessage_keeps_established_sessionId :
  forall (now : jsstring) (s : AppState),
    sessionId s <> [] ->
    sessionId (fst (sendMessage_start now s)) = sessionId s
    /\ (forall req sid,
          snd (sendMessage_start now s) = Some (req, AwaitSend sid) ->
          forall o now' s',
            sessionId (sendMessage_resume sid o now' s') = sessionId s')
    /\ forall o now', sessionId (sendMessage now o now' s) = sessionId s.
Proof.
  intros now s H.
  assert (R : forall o now' s',
             sessionId (sendMessage_resume (sessionId s) o now' s')
             = sessionId s').
  { intros o now' s'. unfold sendMessage_resume.
    destruct (sessionId s) as [|c r]; [congruence|].
    destruct o; reflexivity. }
  split; [|split].
  - unfold sendMessage_start.
    destruct (truthy (trim (inputMessage s))); reflexivity.
  - unfold sendMessage_start.
    destruct (truthy (trim (inputMessage s))); simpl; [|discriminate].
    intros req sid E. inversion E; subst. exact R.
  - intros o now'. unfold sendMessage, sendMessage_start.
    destruct (truthy (trim (inputMessage s))); simpl negb; cbv iota.
    + cbv zeta. rewrite R. reflexivity.
    + reflexivity.
Qed.

Lemma sendMessage_keeps_established_sessionId_witness :
  let s := mkAppState [] (lit "hi") (lit "S1") false chat [] [] [] in
  sessionId (sendMessage (lit "t1")
               (Fulfilled (mkSendData (lit "yo") (lit "S2"))) (lit "t2") s)
  = lit "S1".
Proof.
  intros s.
  apply (sendMessage_keeps_established_sessionId (lit "t1") s).
  vm_compute; discriminate.
Defined.

(** The id is adopted when the call was started without one. *)
Lemma sendMessage_adopts_first_sessionId now now' d s :
  trim (inputMessage s) <> [] ->
  sessionId s = [] ->
  sessionId (sendMessage now (Fulfilled d) now' s) = data_sessionId d.
Proof.
  intros H E. unfold sendMessage.
  rewrite (sendMessage_start_accepts now s H).
  unfold sendMessage_resume. rewrite E. reflexivity.
Qed.

(** ** clearChat *)

(** C4: when [clearChat] has run to its end the log is empty and the session
    id is the empty string, whether the delete request was fulfilled,
    rejected, or never sent because no session id was set; resuming after
    the request resets whatever state is current by then. *)
Theorem clearChat_always_resets :
  forall (o : Outcome unit) (s : AppState),
    messages (clearChat o s) = []
    /\ sessionId (clearChat o s) = []
    /\ (snd (clearChat_start s) = None <-> sessionId s = [])
    /\ forall s', messages (clearChat_resume o s') = []
                  /\ sessionId (clearChat_resume o s') = [].
Proof.
  intros o s. unfold clearChat, clearChat_start.
  destruct (sessionId s) as [|c r] eqn:E; simpl.
  - repeat split; reflexivity.
  - repeat split; try reflexivity; discriminate.
Qed.

(** ** handleSummarize *)

(** C8, as the code has it: a [handleSummarize] call on a text that is not
    empty after trimming sends the raw text and, when it completes, the
    summary cell holds the returned summary on success and the fixed error
    string on failure, whatever it held before, and the loading flag is
    off. *)
Theorem handleSummarize_replaces_summary :
  forall (o : Outcome jsstring) (s : AppState),
    trim (summarizeText s) <> [] ->
    snd (handleSummarize_start s)
    = Some (PostSummarize (summarizeText s), AwaitSummarize)
    /\ summary (handleSummarize o s)
       = match o with
         | Fulfilled text => text
         | Rejected => summarize_error_notice
         end
    /\ loading (handleSummarize o s) = false
    /\ forall s', summary (handleSummarize_resume o s')
                  = match o with
                    | Fulfilled text => text
                    | Rejected => summarize_error_notice
                    end
                  /\ loading (handleSummarize_resume o s') = false.
Proof.
  intros o s H. unfold handleSummarize, handleSummarize_start.
  rewrite (trim_truthy _ H). simpl.
  repeat split; destruct o; reflexivity.
Qed.

Lemma handleSummarize_replaces_summary_witness :
  let s := mkAppState [] [] [] false summarize (lit "long text")
                      (lit "previous summary") [] in
  summary (handleSummarize (Fulfilled (lit "short")) s) = lit "short"
  /\ summary (handleSummarize Rejected s) = summarize_error_notice
  /\ loading (handleSummarize Rejected s) = false.
Proof.
  intros s.
  assert (H : trim (summarizeText s) <> []) by (vm_compute; discriminate).
  pose proof (handleSummarize_replaces_summary (Fulfilled (lit "short")) s H)
    as (_ & A & _).
  pose proof (handleSummarize_replaces_summary Rejected s H) as (_ & B & C & _).
  exact (conj A (conj B C)).
Defined.

(** A text of one space is not empty, yet the call returns at its first
    statement: nothing is sent and the summary cell keeps what it held,
    whatever the service would have answered.  The state is reached by
    summarizing a text, replacing it by a space and pressing Enter. *)
Lemma handleSummarize_ignores_blank_text :
  (let s := mkAppState [] [] [] false summarize (lit " ")
                       (lit "previous summary") [] in
   summarizeText s <> []
   /\ handleSummarize_start s = (s, None)
   /\ summary (handleSummarize (Fulfilled (lit "new summary")) s)
      = lit "previous summary"
   /\ summary (handleSummarize Rejected s) = lit "previous summary"
   /\ summary (handleSummarize Rejected s) <> summarize_error_notice)
  /\ (let w := ui_run initialWorld
                 [ ClickTab summarize; ChangeSummarizeText (lit "long text");
                   ClickSummarize;
                   SummarizeSettled 0 (Fulfilled (lit "previous summary"));
                   ChangeSummarizeText (lit " ");
                   KeyPressSummarize true false (lit "t") ] in
      summarizeText (st w) = lit " "
      /\ summary (st w) = lit "previous summary"
      /\ inflight w = []
      /\ outbox w = [PostSummarize (lit "long text")]).
Proof.
  split.
  - split; [discriminate|]. split; [reflexivity|]. split; [reflexivity|].
    split; [reflexivity|]. vm_compute. discriminate.
  - repeat split.
Qed.

(** ** The pending lock *)







(** ** History previews *)

Lemma firstn_min_length {A : Type} (n : nat) (l : list A) :
  firstn (Nat.min n (List.length l)) l = firstn n l.
Proof.
  destruct (Nat.le_ge_cases n (List.length l)) as [H|H].
  - rewrite Nat.min_l by exact H. reflexivity.
  - rewrite Nat.min_r by exact H.
    rewrite firstn_all, firstn_all2 by exact H. reflexivity.
Qed.

Lemma substring_0 (n : nat) (p : jsstring) : substring 0 n p = firstn n p.
Proof.
  unfold substring. simpl. rewrite Nat.sub_0_r. apply firstn_min_length.
Qed.

Lemma preview_text_long (p : jsstring) :
  100 < List.length p -> preview_text p = firstn 100 p ++ ellipsis.
Proof.
  intros H. unfold preview_text. rewrite substring_0.
  apply Nat.ltb_lt in H. rewrite H. reflexivity.
Qed.

Lemma preview_text_short (p : jsstring) :
  List.length p <= 100 -> preview_text p = p.
Proof.
  intros H. unfold preview_text. rewrite substring_0.
  rewrite firstn_all2 by exact H.
  apply Nat.ltb_ge in H. rewrite H. apply app_nil_r.
Qed.

(** C9: the preview shown for a history group is the first 100 code units
    of the group's preview followed by the three-dot marker when the preview
    is longer than 100, and the whole preview with no marker otherwise; a
    preview of 150 gives 100 plus the marker, one of 50 is shown as it
    is. *)
Theorem shown_preview_truncates_at_100 :
  forall (e : jsstring * list HistoryMessage),
    let p := preview (history_item e) in
    let shown := shown_preview (history_item e) in
    (100 < List.length p ->
       shown = firstn 100 p ++ ellipsis
       /\ List.length (firstn 100 p) = 100)
    /\ (List.length p <= 100 -> shown = p)
    /\ (List.length p = 150 ->
          shown = firstn 100 p ++ ellipsis
          /\ List.length shown = 100 + List.length ellipsis)
    /\ (List.length p = 50 -> shown = p /\ List.length shown = 50).
Proof.
  intros [k ms]. unfold history_item. cbn [preview shown_preview].
  set (p := preview_of ms).
  split; [|split; [|split]].
  - intros H. split; [apply preview_text_long; exact H|].
    apply firstn_length_le; lia.
  - apply preview_text_short.
  - intros H. rewrite preview_text_long by lia.
    split; [reflexivity|].
    rewrite length_app, firstn_length_le by lia. reflexivity.
  - intros H. rewrite preview_text_short by lia. auto.
Qed.

Lemma shown_preview_truncates_at_100_witness :
  shown_preview (history_item (lit "A", [long_history_message 150]))
  = repeat 120%N 100 ++ lit "..."
  /\ shown_preview (history_item (lit "A", [long_history_message 50]))
     = repeat 120%N 50.
Proof.
  split.
  - pose proof (shown_preview_truncates_at_100
                  (lit "A", [long_history_message 150])) as (_ & _ & H & _).
    apply H. reflexivity.
  - pose proof (shown_preview_truncates_at_100
                  (lit "A", [long_history_message 50])) as (_ & _ & _ & H).
    apply H. reflexivity.
Defined.



(** ** Objects as maps *)

Lemma mem_In (k : jsstring) (l : list jsstring) :
  existsb (eqb k) l = true <-> In k l.
Proof.
  rewrite existsb_exists. split.
  - intros (x & Hx & E). apply eqb_eq in E. subst. exact Hx.
  - intros H. exists k. split; [exact H | apply eqb_refl].
Qed.

Lemma mem_notin (k : jsstring) (l : list jsstring) :
  existsb (eqb k) l = false <-> ~ In k l.
Proof.
  rewrite <- mem_In. destruct (existsb (eqb k) l); split; congruence.
Qed.

Section ObjFacts.

Context {V : Type}.
Implicit Types (o : obj V) (k : jsstring) (v : V).

Lemma own_get_none o k : own_get o k = None <-> ~ In k (map fst o).
Proof.
  induction o as [|[k' v'] o IH]; simpl.
  - tauto.
  - destruct (eqb k' k) eqn:E.
    + apply eqb_eq in E. subst. split; [discriminate | tauto].
    + apply eqb_neq in E. rewrite IH. tauto.
Qed.

Lemma own_get_app_new o k v :
  own_get o k = None -> own_get (o ++ [(k, v)]) k = Some v.
Proof.
  induction o as [|[k' v'] o IH]; simpl.
  - rewrite eqb_refl. reflexivity.
  - destruct (eqb k' k); [discriminate | exact IH].
Qed.

Lemma own_replace_app_last o k v v' :
  own_get o k = None -> own_replace (o ++ [(k, v)]) k v' = o ++ [(k, v')].
Proof.
  induction o as [|[k' w] o IH]; simpl.
  - rewrite eqb_refl. reflexivity.
  - destruct (eqb k' k); [discriminate|].
    intros H. rewrite (IH H). reflexivity.
Qed.

Lemma own_get_map (g : jsstring -> V) (ks : list jsstring) k :
  own_get (map (fun k' => (k', g k')) ks) k
  = if existsb (eqb k) ks then Some (g k) else None.
Proof.
  induction ks as [|k' ks IH]; simpl; [reflexivity|].
  rewrite (eqb_sym k k').
  destruct (eqb k' k) eqn:E; simpl; [|exact IH].
  apply eqb_eq in E. subst. reflexivity.
Qed.

Lemma own_replace_map (g : jsstring -> V) (ks : list jsstring) k v :
  NoDup ks ->
  own_replace (map (fun k' => (k', g k')) ks) k v
  = map (fun k' => (k', if eqb k' k then v else g k')) ks.
Proof.
  induction 1 as [|k' ks Hn Hd IH]; simpl; [reflexivity|].
  destruct (eqb k' k) eqn:E.
  - apply eqb_eq in E. subst k'. f_equal.
    apply map_ext_in. intros a Ha.
    destruct (eqb a k) eqn:E'; [|reflexivity].
    apply eqb_eq in E'. subst. contradiction.
  - rewrite IH. reflexivity.
Qed.

End ObjFacts.

(** ** The grouping loop *)

Lemma group_step_eq (o : Sessions) (m : HistoryMessage) :
  group_step o m
  = match own_get o (h_sessionId m) with
    | Some arr => Ok (own_replace o (h_sessionId m) (arr ++ [m]))
    | None => if inherited (h_sessionId m) then TypeError
              else Ok (o ++ [(h_sessionId m, [m])])
    end.
Proof.
  unfold group_step. cbv zeta.
  destruct (own_get o (h_sessionId m)) as [arr|] eqn:E.
  - assert (G : obj_get o (h_sessionId m) = OwnValue arr)
      by (unfold obj_get; rewrite E; reflexivity).
    rewrite G, G. unfold obj_set. rewrite E. reflexivity.
  - destruct (inherited (h_sessionId m)) eqn:I.
    + assert (G : obj_get o (h_sessionId m) = InheritedValue)
        by (unfold obj_get; rewrite E, I; reflexivity).
      rewrite G, G. reflexivity.
    + assert (G : obj_get o (h_sessionId m) = Undefined)
        by (unfold obj_get; rewrite E, I; reflexivity).
      assert (S1 : obj_set o (h_sessionId m) [] = o ++ [(h_sessionId m, [])])
        by (unfold obj_set; rewrite E; reflexivity).
      rewrite G, S1.
      unfold obj_get, obj_set. rewrite (own_get_app_new o _ [] E).
      rewrite (own_replace_app_last o _ [] _ E). reflexivity.
Qed.

Lemma forEach_group_app (l1 l2 : list HistoryMessage) :
  forall o,
    forEach_group (l1 ++ l2) o
    = match forEach_group l1 o with
      | Ok o' => forEach_group l2 o'
      | TypeError => TypeError
      end.
Proof.
  induction l1 as [|m l1 IH]; intros o; simpl; [reflexivity|].
  destruct (group_step o m); [apply IH | reflexivity].
Qed.

(** ** First appearances *)

Lemma first_appearance_In (k : jsstring) (l : list jsstring) :
  In k (first_appearance l) <-> In k l.
Proof.
  induction l as [|a l IH]; simpl; [tauto|].
  rewrite filter_In, IH, negb_true_iff, eqb_neq.
  destruct (list_eq_dec N.eq_dec a k) as [->|Hne]; [tauto|].
  split; [tauto|]. intros [H|H]; [tauto|]. right. split; [exact H|congruence].
Qed.

Lemma first_appearance_NoDup (l : list jsstring) : NoDup (first_appearance l).
Proof.
  induction l as [|a l IH]; simpl; constructor.
  - rewrite filter_In, negb_true_iff, eqb_neq. tauto.
  - apply NoDup_filter. exact IH.
Qed.

Lemma first_appearance_snoc (l : list jsstring) (k : jsstring) :
  first_appearance (l ++ [k])
  = if existsb (eqb k) l then first_appearance l
    else first_appearance l ++ [k].
Proof.
  induction l as [|a l IH]; simpl; [reflexivity|].
  rewrite IH. destruct (existsb (eqb k) l).
  - rewrite orb_true_r. reflexivity.
  - rewrite orb_false_r, filter_app. simpl.
    destruct (eqb k a); simpl; [rewrite app_nil_r|]; reflexivity.
Qed.

Lemma mem_first_appearance (k : jsstring) (l : list jsstring) :
  existsb (eqb k) (first_appearance l) = existsb (eqb k) l.
Proof.
  destruct (existsb (eqb k) l) eqn:E.
  - apply mem_In, first_appearance_In, mem_In, E.
  - apply mem_notin. rewrite first_appearance_In. apply mem_notin, E.
Qed.

Lemma session_messages_snoc k l m :
  session_messages k (l ++ [m])
  = session_messages k l ++ (if eqb (h_sessionId m) k then [m] else []).
Proof. unfold session_messages. rewrite filter_app. reflexivity. Qed.

Lemma session_messages_absent k l :
  ~ In k (map h_sessionId l) -> session_messages k l = [].
Proof.
  intros H. unfold session_messages.
  induction l as [|m l IH]; simpl; [reflexivity|].
  destruct (eqb (h_sessionId m) k) eqn:E.
  - apply eqb_eq in E. exfalso. apply H. left. exact E.
  - apply IH. intros Hin. apply H. right. exact Hin.
Qed.

Lemma groupBySession_spec_snoc_old l m :
  In (h_sessionId m) (map h_sessionId l) ->
  groupBySession_spec (l ++ [m])
  = own_replace (groupBySession_spec l) (h_sessionId m)
                (session_messages (h_sessionId m) l ++ [m]).
Proof.
  intros H. unfold groupBySession_spec.
  rewrite own_replace_map by apply first_appearance_NoDup.
  rewrite map_app. simpl map at 1.
  rewrite first_appearance_snoc.
  apply mem_In in H. rewrite H.
  apply map_ext. intros k.
  rewrite session_messages_snoc, (eqb_sym (h_sessionId m) k).
  destruct (eqb k (h_sessionId m)) eqn:E.
  - apply eqb_eq in E. subst. reflexivity.
  - rewrite app_nil_r. reflexivity.
Qed.

Lemma groupBySession_spec_snoc_new l m :
  ~ In (h_sessionId m) (map h_sessionId l) ->
  groupBySession_spec (l ++ [m])
  = groupBySession_spec l ++ [(h_sessionId m, [m])].
Proof.
  intros H. unfold groupBySession_spec.
  rewrite map_app. simpl map at 1.
  rewrite first_appearance_snoc.
  pose proof H as H'. apply mem_notin in H'. rewrite H'.
  rewrite map_app. simpl. f_equal.
  - apply map_ext_in. intros k Hk.
    rewrite session_messages_snoc.
    destruct (eqb (h_sessionId m) k) eqn:E; [|rewrite app_nil_r; reflexivity].
    apply eqb_eq in E. subst k. exfalso. apply H.
    apply first_appearance_In. exact Hk.
  - rewrite session_messages_snoc, eqb_refl,
            (session_messages_absent _ _ H). reflexivity.
Qed.

Lemma existsb_false_In {A : Type} (f : A -> bool) (l : list A) (x : A) :
  existsb f l = false -> In x l -> f x = false.
Proof.
  intros H Hin. destruct (f x) eqn:E; [|reflexivity].
  assert (existsb f l = true) by (apply existsb_exists; eauto). congruence.
Qed.

(** The loop of the source computes the grouping of the specification,
    unless some session id names a property of [Object.prototype], where it
    throws. *)
Lemma group_sessions_spec (l : list HistoryMessage) :
  group_sessions l
  = if existsb inherited (map h_sessionId l) then TypeError
    else Ok (groupBySession_spec l).
Proof.
  induction l as [|m l IH] using rev_ind; [reflexivity|].
  unfold group_sessions in *. rewrite forEach_group_app, IH.
  rewrite map_app, existsb_app. simpl existsb. rewrite orb_false_r.
  destruct (existsb inherited (map h_sessionId l)) eqn:EI; [reflexivity|].
  simpl. rewrite group_step_eq.
  unfold groupBySession_spec at 1. rewrite own_get_map, mem_first_appearance.
  destruct (existsb (eqb (h_sessionId m)) (map h_sessionId l)) eqn:EM.
  - apply mem_In in EM.
    rewrite (existsb_false_In _ _ _ EI EM).
    rewrite (groupBySession_spec_snoc_old l m EM). reflexivity.
  - apply mem_notin in EM.
    destruct (inherited (h_sessionId m)); [reflexivity|].
    rewrite (groupBySession_spec_snoc_new l m EM). reflexivity.
Qed.

(** ** The order of [Object.entries] *)

Lemma filter_all_true {A : Type} (f : A -> bool) (l : list A) :
  Forall (fun x => f x = true) l -> filter f l = l.
Proof.
  induction 1 as [|x l Hx _ IH]; simpl; [reflexivity|].
  rewrite Hx, IH. reflexivity.
Qed.

Lemma filter_all_false {A : Type} (f : A -> bool) (l : list A) :
  Forall (fun x => f x = false) l -> filter f l = [].
Proof.
  induction 1 as [|x l Hx _ IH]; simpl; [reflexivity|].
  rewrite Hx. exact IH.
Qed.

Lemma filter_holds {A : Type} (f : A -> bool) (l : list A) :
  Forall (fun x => f x = true) (filter f l).
Proof. apply Forall_forall. intros x Hx. apply filter_In in Hx. tauto. Qed.

Lemma filter_split_perm {A : Type} (f : A -> bool) (l : list A) :
  Permutation (filter f l ++ filter (fun x => negb (f x)) l) l.
Proof.
  induction l as [|x l IH]; simpl; [constructor|].
  destruct (f x); simpl.
  - constructor. exact IH.
  - symmetry. apply Permutation_cons_app. symmetry. exact IH.
Qed.

Section EntriesOrder.

Context {V : Type}.
Implicit Types (e : jsstring * V) (l o : obj V).

Lemma insert_by_index_perm e l : Permutation (insert_by_index e l) (e :: l).
Proof.
  induction l as [|e' l IH]; simpl; [reflexivity|].
  destruct (N.leb _ _); [reflexivity|].
  rewrite IH. apply perm_swap.
Qed.

Lemma sort_by_index_perm l : Permutation (sort_by_index l) l.
Proof.
  induction l as [|e l IH]; simpl; [constructor|].
  rewrite insert_by_index_perm. constructor. exact IH.
Qed.

Lemma insert_by_index_first e l :
  HdRel index_le e l -> insert_by_index e l = e :: l.
Proof.
  intros [|e' l' H]; simpl; [reflexivity|].
  apply N.leb_le in H. rewrite H. reflexivity.
Qed.

Lemma insert_by_index_sorted e l :
  Sorted index_le l -> Sorted index_le (insert_by_index e l).
Proof.
  induction 1 as [|e' l Hs IH Hd]; simpl.
  - repeat constructor.
  - destruct (N.leb (index_of (fst e)) (index_of (fst e'))) eqn:E.
    + apply N.leb_le in E. repeat constructor; assumption.
    + apply N.leb_gt in E. constructor; [exact IH|].
      destruct Hd as [|e'' l' H]; simpl.
      * constructor. unfold index_le. lia.
      * destruct (N.leb _ _); constructor; unfold index_le in *; lia.
Qed.

Lemma sort_by_index_sorted l : Sorted index_le (sort_by_index l).
Proof.
  induction l as [|e l IH]; simpl; [constructor|].
  apply insert_by_index_sorted. exact IH.
Qed.

Lemma sort_by_index_fixed l : Sorted index_le l -> sort_by_index l = l.
Proof.
  induction 1 as [|e l Hs IH Hd]; simpl; [reflexivity|].
  rewrite IH. apply insert_by_index_first. exact Hd.
Qed.

Lemma entries_perm o : Permutation (entries o) o.
Proof.
  unfold entries. rewrite sort_by_index_perm.
  apply (filter_split_perm (fun e => is_array_index (fst e))).
Qed.

Lemma entries_of_sorted_split l l' :
  Forall (fun e => is_array_index (fst e) = true) l ->
  Sorted index_le l ->
  Forall (fun e => is_array_index (fst e) = false) l' ->
  entries (l ++ l') = l ++ l'.
Proof.
  intros Hl Hs Hl'.
  assert (Hl_neg : Forall (fun e => negb (is_array_index (fst e)) = false) l).
  { eapply Forall_impl; [|exact Hl]. simpl. intros a Ha. rewrite Ha.
    reflexivity. }
  assert (Hl'_neg : Forall (fun e => negb (is_array_index (fst e)) = true) l').
  { eapply Forall_impl; [|exact Hl']. simpl. intros a Ha. rewrite Ha.
    reflexivity. }
  unfold entries. rewrite !filter_app.
  rewrite (filter_all_true _ l Hl), (filter_all_false _ l' Hl').
  rewrite (filter_all_false _ l Hl_neg), (filter_all_true _ l' Hl'_neg).
  rewrite app_nil_r. simpl.
  rewrite (sort_by_index_fixed l Hs). reflexivity.
Qed.

(** Listing the entries of an object built from a listing gives that
    listing again. *)
Lemma entries_idempotent o : entries (entries o) = entries o.
Proof.
  unfold entries at 2 3. apply entries_of_sorted_split.
  - eapply Permutation_Forall;
      [symmetry; apply sort_by_index_perm|].
    apply (filter_holds (fun e => is_array_index (fst e))).
  - apply sort_by_index_sorted.
  - apply Forall_forall. intros x Hx. apply filter_In in Hx.
    destruct Hx as [_ Hx]. apply negb_true_iff in Hx. exact Hx.
Qed.

Lemma entries_no_index o :
  Forall (fun e => is_array_index (fst e) = false) o -> entries o = o.
Proof.
  intros H. unfold entries.
  rewrite (filter_all_false (fun e => is_array_index (fst e)) o H).
  simpl. apply filter_all_true.
  eapply Forall_impl; [|exact H]. simpl. intros a Ha. rewrite Ha. reflexivity.
Qed.

End EntriesOrder.

(** ** Well-formed groupings *)

Lemma well_grouped_perm (o o' : Sessions) :
  Permutation o o' -> well_grouped o -> well_grouped o'.
Proof.
  intros P [Hn Hf]. split.
  - eapply Permutation_NoDup; [apply Permutation_map; exact P | exact Hn].
  - eapply Permutation_Forall; eassumption.
Qed.

Lemma groupBySession_spec_keys (l : list HistoryMessage) :
  map fst (groupBySession_spec l) = first_appearance (map h_sessionId l).
Proof.
  unfold groupBySession_spec. rewrite map_map. simpl. apply map_id.
Qed.

Lemma groupBySession_spec_well_grouped (l : list HistoryMessage) :
  existsb inherited (map h_sessionId l) = false ->
  well_grouped (groupBySession_spec l).
Proof.
  intros H. split.
  - rewrite groupBySession_spec_keys. apply first_appearance_NoDup.
  - unfold groupBySession_spec. apply Forall_forall. intros e He.
    apply in_map_iff in He. destruct He as (k & <- & Hk).
    rewrite first_appearance_In in Hk.
    unfold group_ok; simpl. split; [|split].
    + apply in_map_iff in Hk. destruct Hk as (m & Em & Hm).
      assert (Hin : In m (session_messages k l)).
      { apply filter_In. split; [exact Hm|]. apply eqb_eq. exact Em. }
      intros E. rewrite E in Hin. exact Hin.
    + apply Forall_forall. intros m Hm. apply filter_In in Hm.
      destruct Hm as [_ Hm]. apply eqb_eq. exact Hm.
    + apply (existsb_false_In _ _ _ H Hk).
Qed.

Lemma forEach_group_same_session (g : list HistoryMessage) :
  forall (pre : Sessions) (k : jsstring) (g0 : list HistoryMessage),
    Forall (fun m => h_sessionId m = k) g ->
    own_get pre k = None ->
    forEach_group g (pre ++ [(k, g0)]) = Ok (pre ++ [(k, g0 ++ g)]).
Proof.
  induction g as [|m g IH]; intros pre k g0 Hs Hp; simpl.
  - rewrite app_nil_r. reflexivity.
  - inversion Hs as [|? ? Hm Hg]; subst.
    rewrite group_step_eq, (own_get_app_new pre _ g0 Hp).
    rewrite (own_replace_app_last pre _ g0 _ Hp).
    rewrite (IH pre _ (g0 ++ [m]) Hg Hp), <- app_assoc. reflexivity.
Qed.

(** Running the loop over the groups of a well-formed grouping, laid end to
    end, rebuilds that grouping. *)
Lemma forEach_group_concat (o : Sessions) :
  forall pre : Sessions,
    NoDup (map fst (pre ++ o)) ->
    Forall group_ok o ->
    forEach_group (List.concat (map snd o)) pre = Ok (pre ++ o).
Proof.
  induction o as [|[k g] o IH]; intros pre Hn Hf; simpl.
  - rewrite app_nil_r. reflexivity.
  - inversion Hf as [|? ? (Hne & Hs & Hi) Hf']; subst. simpl in *.
    destruct g as [|m g]; [congruence|].
    inversion Hs as [|? ? Hm Hg]; subst.
    assert (Hp : own_get pre (h_sessionId m) = None).
    { apply own_get_none. intros Hin.
      rewrite map_app in Hn. simpl in Hn.
      apply NoDup_remove_2 in Hn. apply Hn, in_or_app. left. exact Hin. }
    simpl. rewrite group_step_eq, Hp, Hi.
    rewrite forEach_group_app.
    rewrite (forEach_group_same_session g pre (h_sessionId m) [m] Hg Hp).
    simpl.
    rewrite (IH (pre ++ [(h_sessionId m, m :: g)])).
    + rewrite <- app_assoc. reflexivity.
    + rewrite <- app_assoc. exact Hn.
    + exact Hf'.
Qed.

Lemma group_sessions_concat (o : Sessions) :
  well_grouped o -> group_sessions (List.concat (map snd o)) = Ok o.
Proof.
  intros [Hn Hf]. unfold group_sessions.
  apply (forEach_group_concat o [] Hn Hf).
Qed.

Lemma flatten_history_items (o : Sessions) :
  flatten_items (map history_item o) = List.concat (map snd o).
Proof.
  unfold flatten_items. rewrite map_map. f_equal.
  apply map_ext. intros [k ms]. reflexivity.
Qed.

(** ** The rendered history groups *)

Lemma no_inherited_existsb (l : list HistoryMessage) :
  Forall (fun m => inherited (h_sessionId m) = false) l ->
  existsb inherited (map h_sessionId l) = false.
Proof.
  induction 1 as [|m l Hm _ IH]; simpl; [reflexivity|].
  rewrite Hm, IH. reflexivity.
Qed.

(** For every input the loop accepts, the rendered groups are the entries,
    in [Object.entries] order, of the grouping by first appearance. *)
Lemma history_items_entries_of_spec (l : list HistoryMessage) :
  Forall (fun m => inherited (h_sessionId m) = false) l ->
  history_items l
  = Ok (map history_item (entries (groupBySession_spec l))).
Proof.
  intros H. unfold history_items.
  rewrite group_sessions_spec, (no_inherited_existsb l H). reflexivity.
Qed.

Lemma groupBySession_spec_no_index (l : list HistoryMessage) :
  Forall (fun m => is_array_index (h_sessionId m) = false) l ->
  Forall (fun e => is_array_index (fst e) = false) (groupBySession_spec l).
Proof.
  intros H. apply Forall_forall. intros e He.
  unfold groupBySession_spec in He. apply in_map_iff in He.
  destruct He as (k & <- & Hk). simpl.
  rewrite first_appearance_In in Hk. apply in_map_iff in Hk.
  destruct Hk as (m & <- & Hm).
  rewrite Forall_forall in H. apply H. exact Hm.
Qed.

(** C3, as the code has it: when no session id names a property inherited
    from [Object.prototype], the groups are those of the grouping by first
    appearance (one group per session id, each holding that session's
    messages in input order), listed with the ids that are array indices
    first, in ascending numeric order, and the other ids after them in
    first-appearance order; so when moreover no id is an array index the
    groups come in first-appearance order.  On the three-message example
    there are two groups, A (preview "hi", 2 messages) then B (preview
    "Chat session", 1 message). *)
Theorem history_groups_in_first_appearance_order :
  (forall l : list HistoryMessage,
     Forall (fun m => inherited (h_sessionId m) = false) l ->
     history_items l
     = Ok (map history_item
             (sort_by_index
                (filter (fun e => is_array_index (fst e))
                        (groupBySession_spec l))
              ++ filter (fun e => negb (is_array_index (fst e)))
                        (groupBySession_spec l))))
  /\ (forall l : list HistoryMessage,
        Forall (fun m => inherited (h_sessionId m) = false) l ->
        Forall (fun m => is_array_index (h_sessionId m) = false) l ->
        history_items l = Ok (map history_item (groupBySession_spec l)))
  /\ exists a b : HistoryItem,
       history_items two_sessions = Ok [a; b]
       /\ item_summary a = (lit "A", lit "hi", 2)
       /\ item_summary b = (lit "B", lit "Chat session", 1).
Proof.
  split; [|split].
  - intros l H. apply (history_items_entries_of_spec l H).
  - intros l H H'. rewrite (history_items_entries_of_spec l H).
    rewrite (entries_no_index _ (groupBySession_spec_no_index l H')).
    reflexivity.
  - eexists. eexists. split; [reflexivity|]. split; reflexivity.
Qed.

Lemma history_groups_in_first_appearance_order_witness :
  history_items [hm "s2" "user" "q"; hm "s1" "user" "p"; hm "s2" "user" "r"]
  = Ok [ history_item (lit "s2", [hm "s2" "user" "q"; hm "s2" "user" "r"]);
         history_item (lit "s1", [hm "s1" "user" "p"]) ].
Proof.
  pose proof history_groups_in_first_appearance_order as (_ & H & _).
  apply (H [hm "s2" "user" "q"; hm "s1" "user" "p"; hm "s2" "user" "r"]).
  - repeat constructor.
  - repeat constructor.
Defined.

(** Session ids that are array indices are listed before the others and in
    numeric order, whatever the order they arrived in. *)
Lemma numeric_session_ids_are_reordered :
  let l := [hm "b" "user" "hi"; hm "10" "user" "yo"; hm "9" "user" "hey"] in
  first_appearance (map h_sessionId l) = [lit "b"; lit "10"; lit "9"]
  /\ rendered_order l = Some [lit "9"; lit "10"; lit "b"]
  /\ rendered_order l <> Some (first_appearance (map h_sessionId l)).
Proof.
  intros l. split; [reflexivity|]. split; [reflexivity|].
  vm_compute. discriminate.
Qed.

(** The loop throws on a session id that names an inherited property. *)
Lemma inherited_session_id_throws :
  history_items [hm "constructor" "user" "hi"] = TypeError.
Proof. reflexivity. Qed.

(** C6: the rendering is a function of [recentChats] alone, and laying the
    rendered groups end to end and grouping again gives the same items: the
    same sessions in the same order with the same messages, previews and
    counts. *)
Theorem history_items_regroup_idempotent :
  forall (l : list HistoryMessage) (items : list HistoryItem),
    history_items l = Ok items ->
    history_items (flatten_items items) = Ok items
    /\ forall l' : list HistoryMessage,
         l' = l -> history_items l' = Ok items.
Proof.
  intros l items H. split; [|intros l' ->; exact H].
  unfold history_items in H. rewrite group_sessions_spec in H.
  destruct (existsb inherited (map h_sessionId l)) eqn:EI; [discriminate|].
  inversion H as [E]. clear H.
  rewrite flatten_history_items.
  unfold history_items. rewrite group_sessions_concat.
  - rewrite entries_idempotent. reflexivity.
  - apply (well_grouped_perm (groupBySession_spec l)).
    + symmetry. apply entries_perm.
    + apply groupBySession_spec_well_grouped. exact EI.
Qed.

Lemma history_items_regroup_idempotent_witness :
  history_items
    (flatten_items
       [ history_item (lit "9", [hm "9" "user" ""]);
         history_item (lit "10", [hm "10" "assistant" "yo";
                                  hm "10" "user" "again"]);
         history_item (lit "b", [hm "b" "user" "hi";
                                 hm "b" "assistant" "hello"]) ])
  = Ok [ history_item (lit "9", [hm "9" "user" ""]);
         history_item (lit "10", [hm "10" "assistant" "yo";
                                  hm "10" "user" "again"]);
         history_item (lit "b", [hm "b" "user" "hi";
                                 hm "b" "assistant" "hello"]) ].
Proof.
  exact (proj1 (history_items_regroup_idempotent mixed_sessions _ eq_refl)).
Defined.

(** * Further properties *)

(** ** The history groups *)

Lemma history_items_inv (l : list HistoryMessage) (items : list HistoryItem) :
  history_items l = Ok items ->
  existsb inherited (map h_sessionId l) = false
  /\ items = map history_item (entries (groupBySession_spec l)).
Proof.
  unfold history_items. rewrite group_sessions_spec.
  destruct (existsb inherited (map h_sessionId l)); [discriminate|].
  intros H. inversion H. split; reflexivity.
Qed.

Lemma sessId_history_items (o : Sessions) :
  map sessId (map history_item o) = map fst o.
Proof.
  rewrite map_map. apply map_ext. intros [k ms]. reflexivity.
Qed.

(** X1: the grouping throws exactly when some record's session id is a
    name inherited from [Object.prototype]. *)
Theorem history_items_throws_iff :
  forall l : list HistoryMessage,
    history_items l = TypeError
    <-> Exists (fun m => inherited (h_sessionId m) = true) l.
Proof.
  intros l. unfold history_items. rewrite group_sessions_spec.
  rewrite Exists_exists.
  destruct (existsb inherited (map h_sessionId l)) eqn:E.
  - split; [intros _|reflexivity].
    apply existsb_exists in E. destruct E as (k & Hk & Ik).
    apply in_map_iff in Hk. destruct Hk as (m & <- & Hm). eauto.
  - split; [discriminate|]. intros (m & Hm & Im).
    rewrite (existsb_false_In _ _ _ E (in_map h_sessionId l m Hm)) in Im.
    discriminate.
Qed.

Lemma history_items_throws_iff_witness :
  history_items [hm "A" "user" "hi"; hm "toString" "user" "yo"] = TypeError.
Proof.
  apply (proj2 (history_items_throws_iff
                  [hm "A" "user" "hi"; hm "toString" "user" "yo"])).
  apply Exists_cons_tl. apply Exists_cons_hd. reflexivity.
Defined.

(** X2: the rendered items have pairwise distinct session ids, and these
    are exactly the session ids that occur in the input. *)
Theorem history_items_keys :
  forall (l : list HistoryMessage) (items : list HistoryItem),
    history_items l = Ok items ->
    NoDup (map sessId items)
    /\ forall k, In k (map sessId items) <-> In k (map h_sessionId l).
Proof.
  intros l items H. apply history_items_inv in H. destruct H as [_ ->].
  rewrite sessId_history_items.
  assert (P : Permutation (map fst (entries (groupBySession_spec l)))
                          (first_appearance (map h_sessionId l))).
  { rewrite <- groupBySession_spec_keys.
    apply Permutation_map, entries_perm. }
  split.
  - eapply Permutation_NoDup; [symmetry; exact P|].
    apply first_appearance_NoDup.
  - intros k. rewrite <- (first_appearance_In k (map h_sessionId l)).
    split; intros Hk.
    + eapply Permutation_in; [exact P | exact Hk].
    + eapply Permutation_in; [symmetry; exact P | exact Hk].
Qed.

Lemma history_items_keys_witness :
  NoDup (map sessId
           (map history_item
              [ (lit "9", [hm "9" "user" ""]);
                (lit "10", [hm "10" "assistant" "yo"; hm "10" "user" "again"]);
                (lit "b", [hm "b" "user" "hi"; hm "b" "assistant" "hello"]) ])).
Proof.
  exact (proj1 (history_items_keys mixed_sessions _ eq_refl)).
Defined.

Lemma history_item_In (l : list HistoryMessage) (items : list HistoryItem)
    (it : HistoryItem) :
  history_items l = Ok items -> In it items ->
  exists k, In k (map h_sessionId l)
            /\ it = history_item (k, session_messages k l).
Proof.
  intros H Hin. apply history_items_inv in H. destruct H as [_ ->].
  apply in_map_iff in Hin. destruct Hin as (e & <- & He).
  apply (Permutation_in _ (entries_perm _)) in He.
  unfold groupBySession_spec in He. apply in_map_iff in He.
  destruct He as (k & <- & Hk). rewrite first_appearance_In in Hk.
  exists k. split; [exact Hk | reflexivity].
Qed.

(** X3: every rendered item holds exactly the input records of its session
    id, in input order; its count is their number and its preview is
    computed from them. *)
Theorem history_item_holds_its_session :
  forall (l : list HistoryMessage) (items : list HistoryItem)
         (it : HistoryItem),
    history_items l = Ok items -> In it items ->
    msgs it = session_messages (sessId it) l
    /\ messageCount it = List.length (session_messages (sessId it) l)
    /\ preview it = preview_of (session_messages (sessId it) l).
Proof.
  intros l items it H Hin.
  destruct (history_item_In l items it H Hin) as (k & _ & ->).
  simpl. repeat split.
Qed.

Lemma history_item_holds_its_session_witness :
  msgs (history_item (lit "10", [hm "10" "assistant" "yo";
                                 hm "10" "user" "again"]))
  = session_messages (lit "10") mixed_sessions.
Proof.
  refine (proj1 (history_item_holds_its_session mixed_sessions _
                   (history_item (lit "10", [hm "10" "assistant" "yo";
                                             hm "10" "user" "again"]))
                   eq_refl _)).
  right. left. reflexivity.
Defined.

Lemma nth_error_last {A : Type} (l : list A) (a : A) :
  nth_error (l ++ [a]) (List.length (l ++ [a]) - 1) = Some a.
Proof.
  rewrite length_app. simpl.
  replace (List.length l + 1 - 1) with (List.length l) by lia.
  rewrite nth_error_app2 by lia. rewrite Nat.sub_diag. reflexivity.
Qed.

(** X4: no rendered item is empty: it has at least one message, its first
    and last messages exist and are the first and last of its group, so
    reading [lastMessage.timestamp] never fails. *)
Theorem history_item_never_empty :
  forall (l : list HistoryMessage) (items : list HistoryItem)
         (it : HistoryItem),
    history_items l = Ok items -> In it items ->
    1 <= messageCount it
    /\ exists first rest front final,
         msgs it = first :: rest
         /\ msgs it = front ++ [final]
         /\ firstMessage it = Some first
         /\ lastMessage it = Some final.
Proof.
  intros l items it H Hin.
  destruct (history_item_In l items it H Hin) as (k & Hk & ->).
  assert (Hne : session_messages k l <> []).
  { apply in_map_iff in Hk. destruct Hk as (m & Em & Hm).
    assert (Hin' : In m (session_messages k l)).
    { apply filter_In. split; [exact Hm|]. apply eqb_eq. exact Em. }
    intros E. rewrite E in Hin'. exact Hin'. }
  unfold history_item. cbn [messageCount msgs firstMessage lastMessage].
  destruct (session_messages k l) as [|first rest] eqn:E; [congruence|].
  split; [simpl; lia|].
  destruct (@exists_last _ (first :: rest)) as (front & final & E');
    [discriminate|].
  exists first, rest, front, final.
  split; [reflexivity|]. split; [exact E'|]. split; [reflexivity|].
  rewrite E'. apply nth_error_last.
Qed.

Lemma history_item_never_empty_witness :
  1 <= messageCount (history_item (lit "9", [hm "9" "user" ""])).
Proof.
  refine (proj1 (history_item_never_empty mixed_sessions _
                   (history_item (lit "9", [hm "9" "user" ""]))
                   eq_refl _)).
  left. reflexivity.
Defined.

Lemma own_replace_concat_perm (o : Sessions) (k : jsstring)
    (g : list HistoryMessage) (m : HistoryMessage) :
  own_get o k = Some g ->
  Permutation (List.concat (map snd (own_replace o k (g ++ [m]))))
              (List.concat (map snd o) ++ [m]).
Proof.
  induction o as [|[k' v'] o IH]; simpl; [discriminate|].
  destruct (eqb k' k).
  - intros E. inversion E. subst. simpl.
    rewrite <- !app_assoc. apply Permutation_app_head, Permutation_app_comm.
  - intros E. simpl. rewrite <- app_assoc.
    apply Permutation_app_head, IH, E.
Qed.

Lemma group_step_perm (o o' : Sessions) (m : HistoryMessage) :
  group_step o m = Ok o' ->
  Permutation (List.concat (map snd o')) (List.concat (map snd o) ++ [m]).
Proof.
  rewrite group_step_eq.
  destruct (own_get o (h_sessionId m)) as [g|] eqn:E.
  - intros H. inversion H. apply own_replace_concat_perm, E.
  - destruct (inherited (h_sessionId m)); [discriminate|].
    intros H. inversion H. rewrite map_app, concat_app. reflexivity.
Qed.

Lemma forEach_group_perm (l : list HistoryMessage) :
  forall o o' : Sessions,
    forEach_group l o = Ok o' ->
    Permutation (List.concat (map snd o')) (List.concat (map snd o) ++ l).
Proof.
  induction l as [|m l IH]; intros o o'; simpl.
  - intros H. inversion H. rewrite app_nil_r. reflexivity.
  - destruct (group_step o m) as [o1|] eqn:E; [|discriminate].
    intros H. rewrite (IH _ _ H), (group_step_perm _ _ _ E), <- app_assoc.
    reflexivity.
Qed.

Lemma history_items_flatten_perm (l : list HistoryMessage)
    (items : list HistoryItem) :
  history_items l = Ok items -> Permutation (flatten_items items) l.
Proof.
  intros H. unfold history_items in H.
  destruct (group_sessions l) as [o|] eqn:E; [|discriminate].
  inversion H. subst items. clear H.
  rewrite flatten_history_items, <- !flat_map_concat_map.
  rewrite (Permutation_flat_map snd (entries_perm o)).
  rewrite flat_map_concat_map.
  apply (forEach_group_perm l [] o E).
Qed.

(** X5: the rendered groups partition the input: laid end to end they are a
    rearrangement of the input records, none lost and none repeated, and
    the message counts add up to the number of input records. *)
Theorem history_items_partition :
  forall (l : list HistoryMessage) (items : list HistoryItem),
    history_items l = Ok items ->
    Permutation (flatten_items items) l
    /\ list_sum (map messageCount items) = List.length l.
Proof.
  intros l items H.
  pose proof (history_items_flatten_perm l items H) as P.
  split; [exact P|].
  rewrite <- (Permutation_length P). unfold flatten_items.
  rewrite length_concat, map_map. f_equal.
  apply history_items_inv in H. destruct H as [_ ->].
  rewrite !map_map. apply map_ext. intros [k ms]. reflexivity.
Qed.

Lemma history_items_partition_witness :
  Permutation
    (flatten_items
       (map history_item
          [ (lit "9", [hm "9" "user" ""]);
            (lit "10", [hm "10" "assistant" "yo"; hm "10" "user" "again"]);
            (lit "b", [hm "b" "user" "hi"; hm "b" "assistant" "hello"]) ]))
    mixed_sessions.
Proof.
  exact (proj1 (history_items_partition mixed_sessions _ eq_refl)).
Defined.

(** X6: a history made of records of one session (whose id is not an
    inherited name) is rendered as a single item holding all of them. *)
Theorem history_items_single_session :
  forall (k : jsstring) (l : list HistoryMessage),
    l <> [] ->
    Forall (fun m => h_sessionId m = k) l ->
    inherited k = false ->
    history_items l = Ok [history_item (k, l)].
Proof.
  intros k [|m l] Hne Hk Hi; [congruence|].
  inversion Hk as [|? ? Hm Hl]; subst.
  assert (G : group_sessions (m :: l) = Ok [(h_sessionId m, m :: l)]).
  { unfold group_sessions. simpl. rewrite group_step_eq. simpl. rewrite Hi.
    apply (forEach_group_same_session l [] (h_sessionId m) [m] Hl).
    reflexivity. }
  unfold history_items. rewrite G. unfold entries. simpl.
  destruct (is_array_index (h_sessionId m)); reflexivity.
Qed.

Lemma history_items_single_session_witness :
  history_items [hm "7" "assistant" "a"; hm "7" "user" "b"]
  = Ok [history_item (lit "7", [hm "7" "assistant" "a"; hm "7" "user" "b"])].
Proof.
  apply (history_items_single_session (lit "7")).
  - discriminate.
  - repeat constructor.
  - reflexivity.
Defined.

Section EntriesValues.

Context {V W : Type} (h : jsstring * V -> jsstring * W).
Hypothesis h_key : forall e, fst (h e) = fst e.

Lemma filter_map_values (p : jsstring -> bool) (l : obj V) :
  filter (fun e => p (fst e)) (map h l)
  = map h (filter (fun e => p (fst e)) l).
Proof.
  induction l as [|e l IH]; simpl; [reflexivity|].
  rewrite h_key. destruct (p (fst e)); simpl; rewrite IH; reflexivity.
Qed.

Lemma insert_by_index_map_values (e : jsstring * V) (l : obj V) :
  insert_by_index (h e) (map h l) = map h (insert_by_index e l).
Proof.
  induction l as [|e' l IH]; simpl; [reflexivity|].
  rewrite !h_key. destruct (N.leb _ _); simpl; [reflexivity|].
  rewrite IH. reflexivity.
Qed.

Lemma sort_by_index_map_values (l : obj V) :
  sort_by_index (map h l) = map h (sort_by_index l).
Proof.
  induction l as [|e l IH]; simpl; [reflexivity|].
  rewrite IH. apply insert_by_index_map_values.
Qed.

(** The order of the entries does not depend on the values. *)
Lemma entries_map_values (o : obj V) : entries (map h o) = map h (entries o).
Proof.
  unfold entries.
  rewrite (filter_map_values is_array_index),
          (filter_map_values (fun k => negb (is_array_index k))).
  rewrite sort_by_index_map_values, map_app. reflexivity.
Qed.

End EntriesValues.

Lemma rendered_order_keys (l : list HistoryMessage) :
  rendered_order l
  = if existsb inherited (map h_sessionId l) then None
    else Some (key_order (first_appearance (map h_sessionId l))).
Proof.
  unfold rendered_order, history_items. rewrite group_sessions_spec.
  destruct (existsb inherited (map h_sessionId l)); [reflexivity|].
  f_equal. rewrite sessId_history_items. unfold key_order, groupBySession_spec.
  set (ks := first_appearance (map h_sessionId l)).
  replace (map (fun k => (k, session_messages k l)) ks)
    with (map (fun e : jsstring * unit => (fst e, session_messages (fst e) l))
              (map (fun k => (k, tt)) ks))
    by (rewrite map_map; reflexivity).
  rewrite entries_map_values by reflexivity.
  rewrite map_map. reflexivity.
Qed.

(** X7: the order of the rendered groups depends on the sequence of session
    ids only, and a further record of a session that already occurs does
    not change it. *)
Theorem rendered_order_stable :
  (forall l l' : list HistoryMessage,
     map h_sessionId l = map h_sessionId l' ->
     rendered_order l = rendered_order l')
  /\ forall (l : list HistoryMessage) (m : HistoryMessage),
       In (h_sessionId m) (map h_sessionId l) ->
       rendered_order (l ++ [m]) = rendered_order l.
Proof.
  split.
  - intros l l' E. rewrite !rendered_order_keys, E. reflexivity.
  - intros l m H. rewrite !rendered_order_keys.
    rewrite map_app. cbn [map].
    rewrite existsb_app, first_appearance_snoc. cbn [existsb].
    apply mem_In in H. rewrite H, orb_false_r.
    destruct (existsb inherited (map h_sessionId l)) eqn:E; [reflexivity|].
    apply mem_In in H. rewrite (existsb_false_In _ _ _ E H). reflexivity.
Qed.

Lemma rendered_order_stable_witness :
  rendered_order (mixed_sessions ++ [hm "b" "user" "once more"])
  = rendered_order mixed_sessions.
Proof.
  apply (proj2 rendered_order_stable mixed_sessions
               (hm "b" "user" "once more")).
  left. reflexivity.
Defined.

(** X8: the history list is shown whenever some recent chats are loaded,
    also while a refresh is in progress, and then it is never an empty
    list; the two notices appear only when nothing is loaded. *)
Theorem history_view_list :
  forall s : AppState,
    (recentChats s <> [] ->
     history_view s = HistoryList (history_items (recentChats s)))
    /\ (recentChats s = [] ->
        history_view s = if loading s then LoadingNotice else EmptyNotice)
    /\ forall items,
         history_view s = HistoryList (Ok items) -> items <> [].
Proof.
  intros s. unfold history_view.
  destruct (recentChats s) as [|m l] eqn:E; simpl.
  - split; [congruence|]. split.
    + intros _. rewrite andb_true_r. reflexivity.
    + intros items. rewrite andb_true_r. destruct (loading s); discriminate.
  - rewrite andb_false_r. split; [reflexivity|]. split; [discriminate|].
    intros items H. inversion H as [H'].
    apply history_items_flatten_perm in H'.
    intros ->. apply Permutation_nil in H'. discriminate.
Qed.

Lemma history_view_list_witness :
  history_view (mkAppState [] [] [] true history [] [] two_sessions)
  = HistoryList (history_items two_sessions).
Proof.
  apply (proj1 (history_view_list
                  (mkAppState [] [] [] true history [] [] two_sessions))).
  discriminate.
Defined.

(** ** Previews *)

Lemma preview_of_nonempty (ms : list HistoryMessage) : preview_of ms <> [].
Proof.
  unfold preview_of.
  destruct (find _ ms) as [m|]; [|discriminate].
  destruct (h_content m); simpl; discriminate.
Qed.

(** X9: a history item's preview is never the empty string, and the text
    shown for it has between 1 and 103 code units. *)
Theorem shown_preview_bounds :
  forall e : jsstring * list HistoryMessage,
    preview (history_item e) <> []
    /\ 1 <= List.length (shown_preview (history_item e)) <= 103.
Proof.
  intros [k ms]. unfold history_item. cbn [preview shown_preview].
  pose proof (preview_of_nonempty ms) as Hne.
  set (p := preview_of ms) in *.
  split; [exact Hne|].
  destruct (Nat.le_gt_cases (List.length p) 100) as [H|H].
  - rewrite preview_text_short by exact H.
    destruct p; [congruence|]. simpl in *. lia.
  - rewrite preview_text_long by exact H.
    rewrite length_app, firstn_length_le by lia. simpl. lia.
Qed.




(** ** More on sendMessage *)

Lemma truthy_nonempty (x : jsstring) : truthy x = true <-> x <> [].
Proof. destruct x; simpl; split; congruence. Qed.

(** X11: whenever [sendMessage] issues a request, it is a send of the raw,
    untrimmed input, which is not blank; the session id travels with it
    exactly when one is set, and an empty id is never sent; the suspended
    handler remembers the session id of the state it started from. *)
Theorem sendMessage_request_well_formed :
  forall (now : jsstring) (s : AppState) (req : Request) (p : Pending),
    snd (sendMessage_start now s) = Some (req, p) ->
    trim (inputMessage s) <> []
    /\ p = AwaitSend (sessionId s)
    /\ exists sid,
         req = PostSend (inputMessage s) sid
         /\ sid <> Some []
         /\ (sid = None <-> sessionId s = [])
         /\ (sessionId s <> [] -> sid = Some (sessionId s)).
Proof.
  intros now s req p. unfold sendMessage_start.
  destruct (truthy (trim (inputMessage s))) eqn:T; simpl; [|discriminate].
  intros H. inversion H. subst. clear H.
  split; [apply truthy_nonempty, T|]. split; [reflexivity|].
  eexists. split; [reflexivity|].
  destruct (sessionId s) as [|c r]; simpl.
  - split; [discriminate|]. split; [tauto | congruence].
  - split; [discriminate|]. split; [split; discriminate | reflexivity].
Qed.

Lemma sendMessage_request_well_formed_witness :
  trim (lit " hi ") <> [].
Proof.
  exact (proj1 (sendMessage_request_well_formed
                  (lit "t")
                  (mkAppState [] (lit " hi ") (lit "S") false chat [] [] [])
                  (PostSend (lit " hi ") (Some (lit "S")))
                  (AwaitSend (lit "S")) eq_refl)).
Defined.

(** X12: a [sendMessage] call on a non-blank input, run to its end, leaves
    the loading flag off and the input box empty in both outcomes, and does
    not touch the tab, the summarize cells or the recent chats; the
    resumption switches the loading flag off whatever the state is by
    then. *)
Theorem sendMessage_completion :
  forall (now now' : jsstring) (o : Outcome SendData) (s : AppState),
    trim (inputMessage s) <> [] ->
    loading (fst (sendMessage_start now s)) = true
    /\ loading (sendMessage now o now' s) = false
    /\ inputMessage (sendMessage now o now' s) = []
    /\ outside_chat (sendMessage now o now' s) = outside_chat s
    /\ forall sid s', loading (sendMessage_resume sid o now' s') = false.
Proof.
  intros now now' o s H. unfold sendMessage.
  rewrite (sendMessage_start_accepts now s H). unfold sendMessage_resume.
  split; [reflexivity|].
  split; [destruct o as [d|]; simpl;
          [destruct (truthy (sessionId s))|]; reflexivity|].
  split; [destruct o as [d|]; simpl;
          [destruct (truthy (sessionId s))|]; reflexivity|].
  split; [destruct o as [d|]; simpl;
          [destruct (truthy (sessionId s))|]; reflexivity|].
  intros sid s'. destruct o as [d|]; simpl; [destruct (truthy sid)|];
    reflexivity.
Qed.

Lemma sendMessage_completion_witness :
  loading (sendMessage (lit "t1") Rejected (lit "t2")
             (mkAppState [] (lit "hi") [] false chat [] [] [])) = false.
Proof.
  refine (proj1 (proj2 (sendMessage_completion
                          (lit "t1") (lit "t2") Rejected
                          (mkAppState [] (lit "hi") [] false chat [] [] [])
                          _))).
  vm_compute. discriminate.
Defined.

(** X13: after the first send of a conversation has succeeded, the next
    message is sent with the session id the server returned (and again
    without one when the server returned the empty string). *)
Theorem second_send_carries_adopted_sessionId :
  forall (now now' now2 : jsstring) (d : SendData) (text : jsstring)
         (s : AppState),
    sessionId s = [] ->
    trim (inputMessage s) <> [] ->
    trim text <> [] ->
    snd (sendMessage_start now2
           (setInputMessage text (sendMessage now (Fulfilled d) now' s)))
    = Some (PostSend text
              (if truthy (data_sessionId d) then Some (data_sessionId d)
               else None),
            AwaitSend (data_sessionId d)).
Proof.
  intros now now' now2 d text s E H Ht.
  pose proof (sendMessage_adopts_first_sessionId now now' d s H E) as A.
  rewrite sendMessage_start_accepts by exact Ht.
  cbn [snd sessionId inputMessage setInputMessage]. rewrite A. reflexivity.
Qed.

Lemma second_send_carries_adopted_sessionId_witness :
  snd (sendMessage_start (lit "t3")
         (setInputMessage (lit "more")
            (sendMessage (lit "t1")
               (Fulfilled (mkSendData (lit "yo") (lit "S1"))) (lit "t2")
               (mkAppState [] (lit "hi") [] false chat [] [] []))))
  = Some (PostSend (lit "more") (Some (lit "S1")), AwaitSend (lit "S1")).
Proof.
  apply (second_send_carries_adopted_sessionId
           (lit "t1") (lit "t2") (lit "t3")
           (mkSendData (lit "yo") (lit "S1")) (lit "more")
           (mkAppState [] (lit "hi") [] false chat [] [] []));
    [reflexivity | vm_compute; discriminate | vm_compute; discriminate].
Defined.

(** X14: a failed send never changes the session id; from an unestablished
    session the retry is therefore again sent without an id. *)
Theorem failed_send_keeps_sessionId :
  forall (now now' : jsstring) (s : AppState),
    sessionId (sendMessage now Rejected now' s) = sessionId s
    /\ forall now2 text,
         sessionId s = [] -> trim text <> [] ->
         snd (sendMessage_start now2
                (setInputMessage text (sendMessage now Rejected now' s)))
         = Some (PostSend text None, AwaitSend []).
Proof.
  intros now now' s.
  assert (A : sessionId (sendMessage now Rejected now' s) = sessionId s).
  { unfold sendMessage, sendMessage_start.
    destruct (truthy (trim (inputMessage s))); reflexivity. }
  split; [exact A|].
  intros now2 text E Ht.
  rewrite sendMessage_start_accepts by exact Ht.
  cbn [snd sessionId inputMessage setInputMessage]. rewrite A, E.
  reflexivity.
Qed.

Lemma failed_send_keeps_sessionId_witness :
  snd (sendMessage_start (lit "t3")
         (setInputMessage (lit "again")
            (sendMessage (lit "t1") Rejected (lit "t2")
               (mkAppState [] (lit "hi") [] false chat [] [] []))))
  = Some (PostSend (lit "again") None, AwaitSend []).
Proof.
  apply (proj2 (failed_send_keeps_sessionId
                  (lit "t1") (lit "t2")
                  (mkAppState [] (lit "hi") [] false chat [] [] [])));
    [reflexivity | vm_compute; discriminate].
Defined.

(** X15: a send that was started without a session id adopts the id of its
    reply over whatever id the state holds when the reply arrives: of two
    overlapping first sends the one that settles last decides the id, and a
    reply that arrives after Load Chat is appended to the loaded log and
    replaces the loaded id. *)
Theorem late_reply_overrides_sessionId :
  forall (d : SendData) (now : jsstring),
    (forall s', sessionId (sendMessage_resume [] (Fulfilled d) now s')
                = data_sessionId d)
    /\ (forall d1 now1 s',
          sessionId (sendMessage_resume [] (Fulfilled d) now
                       (sendMessage_resume [] (Fulfilled d1) now1 s'))
          = data_sessionId d)
    /\ forall k ms s,
         sessionId (sendMessage_resume [] (Fulfilled d) now (loadChat k ms s))
         = data_sessionId d
         /\ messages (sendMessage_resume [] (Fulfilled d) now
                        (loadChat k ms s))
            = map chat_message ms
              ++ [mkMessage assistant_role (response d) now].
Proof.
  intros d now. repeat split.
Qed.

(** ** More on clearChat *)




(** X17: clearing a conversation whose first send succeeded asks the server
    to delete exactly the session the server assigned, and nothing when the
    server assigned the empty string. *)
Theorem clearChat_deletes_adopted_session :
  forall (now now' : jsstring) (d : SendData) (s : AppState),
    sessionId s = [] ->
    trim (inputMessage s) <> [] ->
    snd (clearChat_start (sendMessage now (Fulfilled d) now' s))
    = if truthy (data_sessionId d)
      then Some (DeleteHistory (data_sessionId d), AwaitClear)
      else None.
Proof.
  intros now now' d s E H. unfold clearChat_start.
  rewrite (sendMessage_adopts_first_sessionId now now' d s H E).
  destruct (truthy (data_sessionId d)); reflexivity.
Qed.

Lemma clearChat_deletes_adopted_session_witness :
  snd (clearChat_start
         (sendMessage (lit "t1")
            (Fulfilled (mkSendData (lit "yo") (lit "S1"))) (lit "t2")
            (mkAppState [] (lit "hi") [] false chat [] [] [])))
  = Some (DeleteHistory (lit "S1"), AwaitClear).
Proof.
  apply (clearChat_deletes_adopted_session
           (lit "t1") (lit "t2") (mkSendData (lit "yo") (lit "S1"))
           (mkAppState [] (lit "hi") [] false chat [] [] []));
    [reflexivity | vm_compute; discriminate].
Defined.

(** ** More on handleSummarize and loadRecentChats *)

(** X18: on a text that is empty or made of white space only,
    [handleSummarize] does nothing: no request, the state as it was (the
    previous summary included). *)
Theorem handleSummarize_blank_is_noop :
  forall s : AppState,
    forallb is_white_space (summarizeText s) = true ->
    handleSummarize_start s = (s, None)
    /\ forall o, handleSummarize o s = s.
Proof.
  intros s H.
  assert (E : handleSummarize_start s = (s, None)).
  { unfold handleSummarize_start. rewrite (trim_white _ H). reflexivity. }
  split; [exact E|]. intros o. unfold handleSummarize. rewrite E. reflexivity.
Qed.

Lemma handleSummarize_blank_is_noop_witness :
  let s := mkAppState [] [] [] false summarize [9; 32; 12288]%N
                      (lit "previous summary") [] in
  handleSummarize_start s = (s, None) /\ forall o, handleSummarize o s = s.
Proof.
  intros s. apply (handleSummarize_blank_is_noop s). reflexivity.
Defined.

(** X19: summarizing never touches the conversation (log, input box,
    session id), the tab or the recent chats, and it keeps the text it
    summarized in its box: in its first part, in its resumption on any
    state, and as a whole. *)
Theorem handleSummarize_leaves_chat_alone :
  forall (o : Outcome jsstring) (s : AppState),
    let unchanged (a b : AppState) :=
      chat_session a = chat_session b
      /\ summarizeText a = summarizeText b
      /\ activeTab a = activeTab b
      /\ recentChats a = recentChats b in
    unchanged (fst (handleSummarize_start s)) s
    /\ unchanged (handleSummarize_resume o s) s
    /\ unchanged (handleSummarize o s) s.
Proof.
  intros o s. unfold handleSummarize, handleSummarize_start.
  destruct (truthy (trim (summarizeText s))); destruct o; simpl;
    repeat split.
Qed.

(** X20: a failed load of the recent chats keeps the list that was there, a
    successful one replaces it by the reply; either way the loading flag
    ends off and the conversation and the summarize cells are as they
    were. *)
Theorem loadRecentChats_outcomes :
  forall (o : Outcome (list HistoryMessage)) (s : AppState),
    let s' := loadRecentChats_resume o (fst (loadRecentChats_start s)) in
    recentChats s' = match o with
                     | Fulfilled data => data
                     | Rejected => recentChats s
                     end
    /\ loading s' = false
    /\ chat_session s' = chat_session s
    /\ summarizeText s' = summarizeText s
    /\ summary s' = summary s
    /\ snd (loadRecentChats_start s) = Some (GetRecent, AwaitRecent).
Proof.
  intros o s. destruct o; repeat split.
Qed.

(** ** Key presses and tabs *)

Lemma world_eta (w : World) : mkWorld (st w) (inflight w) (outbox w) = w.
Proof. destruct w; reflexivity. Qed.

Lemma launch_nothing (w : World) : launch w (st w, None) = w.
Proof. apply world_eta. Qed.

(** X21: in the chat box, Enter without Shift does exactly what a click on
    Send does, in every state; any other key press, Shift+Enter included,
    does nothing. *)
Theorem chat_enter_is_send :
  forall (w : World) (enter shift : bool) (now : jsstring),
    ui_step w (KeyPressChat enter shift now)
    = if enter && negb shift then ui_step w (ClickSend now) else w.
Proof.
  intros w enter shift now.
  unfold ui_step, handleKeyPress, chat_textarea_disabled,
         send_button_disabled.
  destruct (Tab_eqb (activeTab (st w)) chat) eqn:T;
    destruct (loading (st w)) eqn:L; simpl;
    try (destruct (enter && negb shift); reflexivity).
  destruct (enter && negb shift); [|apply launch_nothing].
  destruct (truthy (trim (inputMessage (st w)))) eqn:B; simpl;
    [reflexivity|].
  unfold sendMessage_start. rewrite B. apply launch_nothing.
Qed.

(** X22: in the summarize box, Enter without Shift does exactly what a
    click on Generate Summary does, in every state; any other key press
    does nothing. *)
Theorem summarize_enter_is_click :
  forall (w : World) (enter shift : bool) (now : jsstring),
    ui_step w (KeyPressSummarize enter shift now)
    = if enter && negb shift then ui_step w ClickSummarize else w.
Proof.
  intros w enter shift now.
  unfold ui_step, handleKeyPress, summarize_textarea_disabled,
         summarize_button_disabled.
  destruct (activeTab (st w)) eqn:T;
    destruct (loading (st w)) eqn:L; simpl;
    try (destruct (enter && negb shift); reflexivity).
  destruct (enter && negb shift); [|apply launch_nothing].
  destruct (truthy (trim (summarizeText (st w)))) eqn:B; simpl;
    [reflexivity|].
  unfold handleSummarize_start. rewrite B. apply launch_nothing.
Qed.

(** X23: a click on a tab never touches the conversation, the summarize
    cells, the recent chats or the suspended handlers; it starts one load of
    the recent chats when it enters the history tab from another tab, and
    none otherwise (a click on the history tab while it is shown included). *)
Theorem tab_click_effects :
  forall (w : World) (t : Tab),
    let w' := ui_step w (ClickTab t) in
    activeTab (st w') = t
    /\ chat_session (st w') = chat_session (st w)
    /\ summarizeText (st w') = summarizeText (st w)
    /\ summary (st w') = summary (st w)
    /\ recentChats (st w') = recentChats (st w)
    /\ (t = history -> activeTab (st w) <> history ->
        inflight w' = inflight w ++ [AwaitRecent]
        /\ outbox w' = outbox w ++ [GetRecent]
        /\ loading (st w') = true)
    /\ (t <> history \/ activeTab (st w) = history ->
        inflight w' = inflight w
        /\ outbox w' = outbox w
        /\ loading (st w') = loading (st w)).
Proof.
  intros w t. unfold ui_step, loadRecentChats_start.
  destruct t; destruct (activeTab (st w)) eqn:T; simpl;
    repeat split; try reflexivity; try (intros; congruence);
    try (intros [H|H]; congruence);
    match goal with H : _ \/ _ |- _ => destruct H; congruence end.
Qed.

Lemma tab_click_effects_witness :
  outbox (ui_step (mkWorld (mkAppState [] [] [] false history [] [] []) [] [])
                  (ClickTab history))
  = [].
Proof.
  refine (proj1 (proj2
            (proj2 (proj2 (proj2 (proj2 (proj2 (proj2
               (tab_click_effects
                  (mkWorld (mkAppState [] [] [] false history [] [] []) [] [])
                  history)))))) _))).
  right. reflexivity.
Defined.

(** ** Clearing while a send is unresolved *)

Lemma drop_nth_last {A : Type} (l : list A) (x : A) :
  drop_nth (List.length l) (l ++ [x]) = l.
Proof.
  unfold drop_nth.
  rewrite skipn_all2 by (rewrite length_app; simpl; lia).
  rewrite firstn_app, Nat.sub_diag, firstn_all. simpl.
  rewrite !app_nil_r. reflexivity.
Qed.

Lemma nth_error_snoc {A : Type} (l : list A) (x : A) :
  nth_error (l ++ [x]) (List.length l) = Some x.
Proof.
  rewrite nth_error_app2 by lia. rewrite Nat.sub_diag. reflexivity.
Qed.

(** X24: the Clear button stays enabled while a send is unresolved.  From
    an unestablished session: Send, then Clear, then the reply.  The clear
    empties the log at once and sends nothing; the reply is then appended
    to the emptied log and its session id is adopted, so the cleared chat
    ends with the assistant reply alone and an established session. *)
Theorem clear_during_first_send :
  forall (w : World) (now now' : jsstring) (d : SendData),
    activeTab (st w) = chat ->
    loading (st w) = false ->
    trim (inputMessage (st w)) <> [] ->
    sessionId (st w) = [] ->
    let w' := ui_run w [ ClickSend now; ClickClear;
                         SendSettled (List.length (inflight w))
                                     (Fulfilled d) now' ] in
    messages (st w') = [mkMessage assistant_role (response d) now']
    /\ sessionId (st w') = data_sessionId d
    /\ loading (st w') = false
    /\ inflight w' = inflight w
    /\ outbox w' = outbox w ++ [PostSend (inputMessage (st w)) None].
Proof.
  intros [s inf out] now now' d T L B E. simpl in T, L, B, E.
  unfold ui_run. cbn [fold_left].
  assert (S1 : ui_step (mkWorld s inf out) (ClickSend now)
               = mkWorld
                   (setLoading true
                      (setInputMessage []
                         (setMessages
                            (fun prev =>
                               prev ++ [mkMessage user_role (inputMessage s)
                                                  now]) s)))
                   (inf ++ [AwaitSend []])
                   (out ++ [PostSend (inputMessage s) None])).
  { unfold ui_step, send_button_disabled. cbn [st inflight outbox].
    rewrite T, L, (trim_truthy _ B). cbn [Tab_eqb negb orb andb].
    rewrite (sendMessage_start_accepts now s B), E. reflexivity. }
  rewrite S1. clear S1.
  set (s1 := setLoading true _).
  assert (S2 : ui_step (mkWorld s1 (inf ++ [AwaitSend []])
                                (out ++ [PostSend (inputMessage s) None]))
                       ClickClear
               = mkWorld (clearChat_finish s1) (inf ++ [AwaitSend []])
                         (out ++ [PostSend (inputMessage s) None])).
  { unfold ui_step, clear_button_disabled, clearChat_start.
    cbn [st inflight outbox].
    assert (A : activeTab s1 = chat) by exact T.
    assert (M : Nat.eqb (List.length (messages s1)) 0 = false).
    { subst s1. cbn [messages setLoading setInputMessage setMessages].
      rewrite length_app. simpl. apply Nat.eqb_neq. lia. }
    assert (I : sessionId s1 = []) by exact E.
    rewrite A, M, I. reflexivity. }
  rewrite S2. clear S2.
  unfold ui_step. cbn [st inflight outbox].
  rewrite nth_error_snoc. unfold settle. cbn [st inflight outbox].
  rewrite drop_nth_last. repeat split.
Qed.

Lemma clear_during_first_send_witness :
  messages
    (st (ui_run (mkWorld (mkAppState [] (lit "hi") [] false chat [] [] [])
                         [] [])
                [ ClickSend (lit "t1"); ClickClear;
                  SendSettled 0 (Fulfilled (mkSendData (lit "yo") (lit "S1")))
                              (lit "t2") ]))
  = [mkMessage assistant_role (lit "yo") (lit "t2")].
Proof.
  refine (proj1 (clear_during_first_send
                   (mkWorld (mkAppState [] (lit "hi") [] false chat [] [] [])
                            [] [])
                   (lit "t1") (lit "t2") (mkSendData (lit "yo") (lit "S1"))
                   eq_refl eq_refl _ eq_refl)).
  vm_compute. discriminate.
Defined.

(** ** Invariants of the running component *)

Lemma ui_run_invariant (P : World -> Prop) :
  (forall w e, P w -> P (ui_step w e)) ->
  forall es w, P w -> P (ui_run w es).
Proof.
  intros Hstep es. unfold ui_run.
  induction es as [|e es IH]; intros w Hw; simpl; [exact Hw|].
  apply IH, Hstep, Hw.
Qed.

Lemma st_launch (w : World) (r : AppState * option (Request * Pending)) :
  st (launch w r) = fst r.
Proof. destruct r as [s [[req p]|]]; reflexivity. Qed.

Lemma In_drop_nth {A : Type} (l : list A) :
  forall (i : nat) (p q : A),
    nth_error l i = Some q -> In p l -> p <> q -> In p (drop_nth i l).
Proof.
  induction l as [|x l IH]; intros [|i] p q Hn Hin Hne;
    try discriminate; simpl in Hn.
  - inversion Hn. subst. destruct Hin as [->|Hin]; [congruence|exact Hin].
  - change (drop_nth (S i) (x :: l)) with (x :: drop_nth i l).
    destruct Hin as [->|Hin]; [left; reflexivity|].
    right. apply (IH i p q Hn Hin Hne).
Qed.

Lemma spinner_off (s : AppState) inf out :
  loading s = false -> spinner_backed (mkWorld s inf out).
Proof. intros H. unfold spinner_backed. simpl. congruence. Qed.

Lemma spinner_keep (w : World) (s : AppState) inf out :
  loading s = loading (st w) ->
  (forall p, In p (inflight w) -> In p inf) ->
  spinner_backed w -> spinner_backed (mkWorld s inf out).
Proof.
  intros L I H. unfold spinner_backed in *. simpl. rewrite L. intros T.
  destruct (H T) as (p & Hp & Cp). exists p. split; [apply I, Hp | exact Cp].
Qed.

Lemma spinner_launch (w : World) (r : AppState * option (Request * Pending)) :
  (forall req p, snd r = Some (req, p) -> is_AwaitClear p = false) ->
  (snd r = None -> loading (fst r) = loading (st w)) ->
  spinner_backed w -> spinner_backed (launch w r).
Proof.
  intros Hs Hn H. destruct r as [s [[req p]|]]; simpl in *.
  - intros _. exists p. simpl. split; [apply in_or_app; right; left; reflexivity|].
    apply (Hs req p eq_refl).
  - apply (spinner_keep w); auto.
Qed.

Lemma sendMessage_start_launch (now : jsstring) (s : AppState) :
  (forall req p, snd (sendMessage_start now s) = Some (req, p) ->
                 is_AwaitClear p = false)
  /\ (snd (sendMessage_start now s) = None ->
      fst (sendMessage_start now s) = s).
Proof.
  unfold sendMessage_start.
  destruct (truthy (trim (inputMessage s))); simpl; split;
    try discriminate; try reflexivity.
  intros req p H. inversion H. reflexivity.
Qed.

Lemma handleSummarize_start_launch (s : AppState) :
  (forall req p, snd (handleSummarize_start s) = Some (req, p) ->
                 is_AwaitClear p = false)
  /\ (snd (handleSummarize_start s) = None ->
      fst (handleSummarize_start s) = s).
Proof.
  unfold handleSummarize_start.
  destruct (truthy (trim (summarizeText s))); simpl; split;
    try discriminate; try reflexivity.
  intros req p H. inversion H. reflexivity.
Qed.

Lemma handleKeyPress_launch (enter shift : bool) (now : jsstring)
    (s : AppState) :
  (forall req p, snd (handleKeyPress enter shift now s) = Some (req, p) ->
                 is_AwaitClear p = false)
  /\ (snd (handleKeyPress enter shift now s) = None ->
      fst (handleKeyPress enter shift now s) = s).
Proof.
  unfold handleKeyPress.
  destruct (enter && negb shift); [|split; [discriminate|reflexivity]].
  destruct (Tab_eqb (activeTab s) chat); [apply sendMessage_start_launch|].
  destruct (Tab_eqb (activeTab s) summarize);
    [apply handleSummarize_start_launch|].
  split; [discriminate|reflexivity].
Qed.

Lemma spinner_launch_handler (w : World)
    (r : AppState * option (Request * Pending)) :
  (forall req p, snd r = Some (req, p) -> is_AwaitClear p = false)
  /\ (snd r = None -> fst r = st w) ->
  spinner_backed w -> spinner_backed (launch w r).
Proof.
  intros [Hs Hn]. apply spinner_launch; [exact Hs|].
  intros E. rewrite (Hn E). reflexivity.
Qed.

Lemma spinner_backed_step (w : World) (e : Event) :
  spinner_backed w -> spinner_backed (ui_step w e).
Proof.
  intros H. destruct e; unfold ui_step.
  - destruct (_ && _); [|exact H]. apply (spinner_keep w); auto.
  - destruct (_ && _); [|exact H].
    apply spinner_launch_handler; [apply handleKeyPress_launch | exact H].
  - destruct (_ && _); [|exact H].
    apply spinner_launch_handler; [apply sendMessage_start_launch | exact H].
  - destruct (_ && _); [|exact H]. unfold clearChat_start.
    destruct (truthy (sessionId (st w))).
    + apply (spinner_keep w); [reflexivity| |exact H].
      intros p Hp. apply in_or_app. left. exact Hp.
    + apply (spinner_keep w); auto.
  - destruct (_ && _).
    + intros _. exists AwaitRecent. simpl.
      split; [apply in_or_app; right; left; reflexivity | reflexivity].
    + apply (spinner_keep w); auto.
  - destruct (_ && _); [|exact H]. apply (spinner_keep w); auto.
  - destruct (_ && _); [|exact H].
    apply spinner_launch_handler; [apply handleKeyPress_launch | exact H].
  - destruct (_ && _); [|exact H].
    apply spinner_launch_handler; [apply handleSummarize_start_launch | exact H].
  - destruct (_ && _); [|exact H]. apply (spinner_keep w); auto.
  - destruct (_ && _); [|exact H].
    intros _. exists AwaitRecent. simpl.
    split; [apply in_or_app; right; left; reflexivity | reflexivity].
  - destruct (nth_error (inflight w) i) as [[]|]; try exact H.
    apply spinner_off. destruct o as [d|]; simpl;
      [destruct (truthy captured_sessionId)|]; reflexivity.
  - destruct (nth_error (inflight w) i) as [[]|]; try exact H.
    apply spinner_off. destruct o; reflexivity.
  - destruct (nth_error (inflight w) i) as [[]|]; try exact H.
    apply spinner_off. destruct o; reflexivity.
  - destruct (nth_error (inflight w) i) as [[]|] eqn:N; try exact H.
    unfold settle, spinner_backed in *. simpl. intros T.
    destruct (H T) as (p & Hp & Cp). exists p. split; [|exact Cp].
    apply (In_drop_nth _ i p AwaitClear N Hp).
    intros ->. discriminate.
Qed.

(** X25: starting from the initial state, after any sequence of typing, key
    presses, clicks on Send, Clear, the tabs, Generate Summary, the summary's
    Clear and Refresh, and settlements of requests, the loading flag is on
    only if a send, a summarize or a load of the recent chats is still
    unresolved: the flag is never left on with nothing to switch it off. *)
Theorem loading_flag_is_backed :
  forall es : list Event, spinner_backed (ui_run initialWorld es).
Proof.
  intros es. apply (ui_run_invariant spinner_backed).
  - intros w e. apply spinner_backed_step.
  - unfold spinner_backed. simpl. discriminate.
Qed.

Lemma written_here_snoc (l : list Message) (m : Message) :
  Forall written_here l -> written_here m -> Forall written_here (l ++ [m]).
Proof.
  intros Hl Hm. apply Forall_app. split; [exact Hl|]. constructor; auto.
Qed.

Lemma written_here_sendMessage_start (now : jsstring) (s : AppState) :
  Forall written_here (messages s) ->
  Forall written_here (messages (fst (sendMessage_start now s))).
Proof.
  intros H. unfold sendMessage_start.
  destruct (truthy (trim (inputMessage s))) eqn:B; simpl; [|exact H].
  apply written_here_snoc; [exact H|]. left. simpl.
  split; [reflexivity | apply truthy_nonempty, B].
Qed.

Lemma written_here_handleSummarize_start (s : AppState) :
  Forall written_here (messages s) ->
  Forall written_here (messages (fst (handleSummarize_start s))).
Proof.
  intros H. unfold handleSummarize_start.
  destruct (truthy (trim (summarizeText s))); exact H.
Qed.

Lemma written_here_handleKeyPress (enter shift : bool) (now : jsstring)
    (s : AppState) :
  Forall written_here (messages s) ->
  Forall written_here (messages (fst (handleKeyPress enter shift now s))).
Proof.
  intros H. unfold handleKeyPress.
  destruct (enter && negb shift); [|exact H].
  destruct (Tab_eqb (activeTab s) chat);
    [apply written_here_sendMessage_start, H|].
  destruct (Tab_eqb (activeTab s) summarize);
    [apply written_here_handleSummarize_start, H | exact H].
Qed.

Lemma written_here_step (w : World) (e : Event) :
  Forall written_here (messages (st w)) ->
  Forall written_here (messages (st (ui_step w e))).
Proof.
  intros H. destruct e; unfold ui_step.
  - destruct (_ && _); exact H.
  - destruct (_ && _); [|exact H]. rewrite st_launch.
    apply written_here_handleKeyPress, H.
  - destruct (_ && _); [|exact H]. rewrite st_launch.
    apply written_here_sendMessage_start, H.
  - destruct (_ && _); [|exact H]. rewrite st_launch.
    unfold clearChat_start. destruct (truthy _); [exact H | constructor].
  - destruct (_ && _); [rewrite st_launch|]; exact H.
  - destruct (_ && _); exact H.
  - destruct (_ && _); [|exact H]. rewrite st_launch.
    apply written_here_handleKeyPress, H.
  - destruct (_ && _); [|exact H]. rewrite st_launch.
    apply written_here_handleSummarize_start, H.
  - destruct (_ && _); exact H.
  - destruct (_ && _); [rewrite st_launch|]; exact H.
  - destruct (nth_error (inflight w) i) as [[]|]; try exact H.
    unfold settle. cbn [st]. rewrite sendMessage_resume_messages.
    apply written_here_snoc; [exact H|]. right. destruct o; reflexivity.
  - destruct (nth_error (inflight w) i) as [[]|]; try exact H.
    destruct o; exact H.
  - destruct (nth_error (inflight w) i) as [[]|]; try exact H.
    destruct o; exact H.
  - destruct (nth_error (inflight w) i) as [[]|]; try exact H.
    constructor.
Qed.

(** X26: starting from the initial state, after any sequence of the events
    above (Load Chat is not among them), every message of the log is an
    assistant message or a user message whose content is not blank. *)
Theorem log_holds_written_messages :
  forall es : list Event,
    Forall written_here (messages (st (ui_run initialWorld es))).
Proof.
  intros es.
  apply (ui_run_invariant
           (fun w => Forall written_here (messages (st w)))).
  - intros w e. apply written_here_step.
  - constructor.
Qed.

Lemma outbox_launch (w : World) (r : AppState * option (Request * Pending)) :
  outbox (launch w r)
  = outbox w ++ match snd r with Some (req, _) => [req] | None => [] end.
Proof.
  destruct r as [s [[req p]|]]; simpl; [reflexivity|].
  rewrite app_nil_r. reflexivity.
Qed.

Lemma request_ok_launch (w : World)
    (r : AppState * option (Request * Pending)) :
  (forall req p, snd r = Some (req, p) -> request_ok req) ->
  Forall request_ok (outbox w) -> Forall request_ok (outbox (launch w r)).
Proof.
  intros Hr H. rewrite outbox_launch. apply Forall_app. split; [exact H|].
  destruct (snd r) as [[req p]|] eqn:E; constructor; [|constructor].
  apply (Hr req p eq_refl).
Qed.

Lemma request_ok_sendMessage_start (now : jsstring) (s : AppState) :
  forall req p, snd (sendMessage_start now s) = Some (req, p) ->
                request_ok req.
Proof.
  intros req p. unfold sendMessage_start.
  destruct (truthy (trim (inputMessage s))) eqn:B; simpl; [|discriminate].
  intros H. inversion H. simpl. split; [apply truthy_nonempty, B|].
  destruct (sessionId s); simpl; discriminate.
Qed.

Lemma request_ok_handleSummarize_start (s : AppState) :
  forall req p, snd (handleSummarize_start s) = Some (req, p) ->
                request_ok req.
Proof.
  intros req p. unfold handleSummarize_start.
  destruct (truthy (trim (summarizeText s))) eqn:B; simpl; [|discriminate].
  intros H. inversion H. simpl. apply truthy_nonempty, B.
Qed.

Lemma request_ok_handleKeyPress (enter shift : bool) (now : jsstring)
    (s : AppState) :
  forall req p, snd (handleKeyPress enter shift now s) = Some (req, p) ->
                request_ok req.
Proof.
  unfold handleKeyPress.
  destruct (enter && negb shift); [|discriminate].
  destruct (Tab_eqb (activeTab s) chat);
    [apply request_ok_sendMessage_start|].
  destruct (Tab_eqb (activeTab s) summarize);
    [apply request_ok_handleSummarize_start | discriminate].
Qed.

Lemma request_ok_clearChat_start (s : AppState) :
  forall req p, snd (clearChat_start s) = Some (req, p) -> request_ok req.
Proof.
  intros req p. unfold clearChat_start.
  destruct (sessionId s) eqn:E; simpl; [discriminate|].
  intros H. inversion H. simpl. discriminate.
Qed.

Lemma request_ok_step (w : World) (e : Event) :
  Forall request_ok (outbox w) -> Forall request_ok (outbox (ui_step w e)).
Proof.
  intros H. destruct e; unfold ui_step;
    try (destruct (nth_error (inflight w) i) as [[]|]; exact H);
    try (destruct (_ && _); exact H).
  - destruct (_ && _); [|exact H].
    apply request_ok_launch; [apply request_ok_handleKeyPress | exact H].
  - destruct (_ && _); [|exact H].
    apply request_ok_launch; [apply request_ok_sendMessage_start | exact H].
  - destruct (_ && _); [|exact H].
    apply request_ok_launch; [apply request_ok_clearChat_start | exact H].
  - destruct (_ && _); [|exact H].
    apply request_ok_launch; [|exact H].
    intros req p E. inversion E. exact I.
  - destruct (_ && _); [|exact H].
    apply request_ok_launch; [apply request_ok_handleKeyPress | exact H].
  - destruct (_ && _); [|exact H].
    apply request_ok_launch; [apply request_ok_handleSummarize_start | exact H].
  - destruct (_ && _); [|exact H].
    apply request_ok_launch; [|exact H].
    intros req p E. inversion E. exact I.
Qed.

(** X27: starting from the initial state, after any sequence of the events
    above, no request that was sent posts a blank message or a blank text to
    summarize, none carries an empty session id beside a message, and none
    asks to delete the history of an empty session id. *)
Theorem requests_are_never_blank :
  forall es : list Event,
    Forall request_ok (outbox (ui_run initialWorld es)).
Proof.
  intros es.
  apply (ui_run_invariant (fun w => Forall request_ok (outbox w))).
  - intros w e. apply request_ok_step.
  - constructor.
Qed.

(** ** Labels *)

(** X28: the session labels show at most the first 8 code units of the id
    and always end with the three dots, also when the id has 8 code units
    or fewer and nothing was cut; the chat tab's label is absent exactly
    when no session id is set. *)
Theorem session_labels_always_dotted :
  forall s : AppState,
    (session_info s = None <-> sessionId s = [])
    /\ (sessionId s <> [] ->
        session_info s
        = Some (lit "Session ID: " ++ firstn 8 (sessionId s) ++ ellipsis))
    /\ (sessionId s <> [] -> List.length (sessionId s) <= 8 ->
        session_info s = Some (lit "Session ID: " ++ sessionId s ++ ellipsis))
    /\ forall k,
         history_session_label k = lit "Session: " ++ firstn 8 k ++ ellipsis
         /\ (List.length k <= 8 ->
             history_session_label k = lit "Session: " ++ k ++ ellipsis).
Proof.
  intros s. unfold session_info, history_session_label.
  split; [|split; [|split]].
  - destruct (sessionId s); simpl; split; congruence.
  - intros H. apply truthy_nonempty in H. rewrite H, substring_0.
    reflexivity.
  - intros H L. apply truthy_nonempty in H.
    rewrite H, substring_0, firstn_all2 by exact L. reflexivity.
  - intros k. rewrite substring_0. split; [reflexivity|].
    intros L. rewrite firstn_all2 by exact L. reflexivity.
Qed.

Lemma session_labels_always_dotted_witness :
  session_info (mkAppState [] [] (lit "abc") false chat [] [] [])
  = Some (lit "Session ID: abc...").
Proof.
  refine (proj1 (proj2 (proj2 (session_labels_always_dotted
                                 (mkAppState [] [] (lit "abc") false chat
                                             [] [] []))))
                _ _).
  - discriminate.
  - simpl. lia.
Defined.

(** ** The history item buttons *)

(** X29: deleting a session never edits the list on screen.  Declining the
    confirmation does nothing; a failed delete leaves the state as it was
    and raises the alert; a successful one starts one load of the recent
    chats and raises no alert, and the list changes only if that load is
    fulfilled: when it fails, the deleted session is still listed. *)
Theorem deleteSession_reloads_only_on_success :
  forall (sessId : jsstring) (s : AppState),
    deleteSession_start false sessId s = (s, None)
    /\ deleteSession_start true sessId s = (s, Some (DeleteHistory sessId))
    /\ deleteSession_resume Rejected s = ((s, None), Some delete_failed_alert)
    /\ forall u : unit,
         snd (deleteSession_resume (Fulfilled u) s) = None
         /\ snd (fst (deleteSession_resume (Fulfilled u) s))
            = Some (GetRecent, AwaitRecent)
         /\ recentChats (fst (fst (deleteSession_resume (Fulfilled u) s)))
            = recentChats s
         /\ forall o',
              recentChats
                (loadRecentChats_resume o'
                   (fst (fst (deleteSession_resume (Fulfilled u) s))))
              = match o' with
                | Fulfilled data => data
                | Rejected => recentChats s
                end.
Proof.
  intros sessId s. repeat split. destruct o'; reflexivity.
Qed.




Lemma loading_flag_is_backed_witness :
  exists p,
    In p (inflight (ui_run initialWorld
                      [ChangeInput (lit "a"); ClickSend (lit "t1"); ClickClear]))
    /\ is_AwaitClear p = false.
Proof.
  apply (loading_flag_is_backed
           [ChangeInput (lit "a"); ClickSend (lit "t1"); ClickClear]).
  reflexivity.
Defined.
